(** * beads-worker: the autonomous bead execution loop

    A shallow embedding of [beads-worker.py] and the properties of its
    task selection and loop control.

    - Values decoded by [json.loads] are modelled by [json]; a Python
      [dict] with string keys is a [gmap string json].
    - Python exceptions that the script does not catch are results
      ([res], [outcome]); external processes and library functions the
      script calls are the fields of a [Platform].
    - Every function of the script is a definition of the same name. *)

From Stdlib Require Import ZArith QArith String Ascii List Sorted Lia.
From Stdlib Require Import Floats.SpecFloat.
From stdpp Require Import gmap strings list.

Local Close Scope Q_scope.
Local Open Scope string_scope.
Local Open Scope Z_scope.
Local Open Scope list_scope.

Set Warnings "-register-all".

(* ===================================================================== *)
(** ** Python values *)
(* ===================================================================== *)

(** What [json.loads] can return: [None], [bool], [int] (unbounded),
    [float] (IEEE binary64, with [NaN] and the infinities, which
    [json.loads] accepts), [str], [list] and [dict]. *)
Inductive json : Type :=
| JNull
| JBool (b : bool)
| JInt (z : Z)
| JFloat (f : spec_float)
| JStr (s : string)
| JArr (l : list json)
| JObj (d : gmap string json).

(** The exceptions that can escape the script's own code. *)
Inductive pyexn : Type :=
| TypeError
| AttributeError
| KeyError
| IndexError.

(** A pure computation that may raise. *)
Inductive res (A : Type) : Type :=
| Ok (a : A)
| Err (e : pyexn).
Arguments Ok {A} a.
Arguments Err {A} e.

#[export] Instance res_ret : MRet res := fun _ a => Ok a.
#[export] Instance res_bind : MBind res := fun _ _ f m =>
  match m with
  | Ok a => f a
  | Err e => Err e
  end.

(** The value of a Python number: Python compares [int], [bool] and
    [float] operands by their exact mathematical value; [NaN] is
    unordered. *)
Inductive pynum : Type :=
| NNan
| NNegInf
| NPosInf
| NFin (q : Q).

Definition float_num (f : spec_float) : pynum :=
  match f with
  | S754_zero _ => NFin 0
  | S754_infinity true => NNegInf
  | S754_infinity false => NPosInf
  | S754_nan => NNan
  | S754_finite s m e =>
      NFin ((if s then - inject_Z (Z.pos m) else inject_Z (Z.pos m)) * Qpower 2 e)%Q
  end.

Definition to_num (v : json) : option pynum :=
  match v with
  | JBool b => Some (NFin (if b then 1 else 0)%Q)
  | JInt z => Some (NFin (inject_Z z))
  | JFloat f => Some (float_num f)
  | _ => None
  end.

(** [a <= b] and [a < b] on numbers. *)
Definition num_le (a b : pynum) : bool :=
  match a, b with
  | NNan, _ | _, NNan => false
  | NNegInf, _ => true
  | _, NPosInf => true
  | NFin x, NFin y => Qle_bool x y
  | _, _ => false
  end.

Definition num_lt (a b : pynum) : bool :=
  match a, b with
  | NNan, _ | _, NNan => false
  | NNegInf, NNegInf => false
  | NNegInf, _ => true
  | NPosInf, _ => false
  | NFin _, NPosInf => true
  | NFin x, NFin y => negb (Qle_bool y x)
  | NFin _, NNegInf => false
  end.

(** The same orders as propositions over the rationals. *)
Definition num_leP (a b : pynum) : Prop :=
  match a, b with
  | NNan, _ | _, NNan => False
  | NNegInf, _ => True
  | _, NPosInf => True
  | NFin x, NFin y => (x <= y)%Q
  | _, _ => False
  end.

Definition num_ltP (a b : pynum) : Prop := num_leP a b /\ ~ num_leP b a.

(** [v <= w] and [v < w] as the script uses them: on numbers. Every other
    JSON value against an [int] raises [TypeError]; two non-numbers never
    reach a comparison in this script (see [select_sort_keys]). *)
Definition py_le (v w : json) : res bool :=
  match to_num v, to_num w with
  | Some a, Some b => Ok (num_le a b)
  | _, _ => Err TypeError
  end.

Definition py_lt (v w : json) : res bool :=
  match to_num v, to_num w with
  | Some a, Some b => Ok (num_lt a b)
  | _, _ => Err TypeError
  end.

(** Truth value testing ([not x], [if x]). *)
Definition truthy (v : json) : bool :=
  match v with
  | JNull => false
  | JBool b => b
  | JInt z => negb (z =? 0)
  | JFloat (S754_zero _) => false
  | JFloat _ => true
  | JStr s => negb (String.length s =? 0)%nat
  | JArr l => negb (length l =? 0)%nat
  | JObj d => negb (size d =? 0)%nat
  end.

(** [v.get(k, dflt)]: only a [dict] has the method. *)
Definition py_get (v : json) (k : string) (dflt : json) : res json :=
  match v with
  | JObj d => Ok (default dflt (d !! k))
  | _ => Err AttributeError
  end.

(** [v == s] for a [str] literal [s]. *)
Definition str_eqb (v : json) (s : string) : bool :=
  match v with
  | JStr s' => bool_decide (s' = s)
  | _ => false
  end.

(** The elements [for t in v] runs over: the items of a list, the keys of
    a dict, the characters of a string (one [ascii] each); the other
    values are not iterable. *)
Definition py_iter (v : json) : res (list json) :=
  match v with
  | JArr l => Ok l
  | JObj d => Ok (JStr <$> (map_to_list d).*1)
  | JStr s => Ok ((fun c => JStr (String c EmptyString)) <$> list_ascii_of_string s)
  | _ => Err TypeError
  end.

(* ===================================================================== *)
(** ** Selection: filter and sort (lines 120-121) *)
(* ===================================================================== *)

(** [x.get('priority', 999)] *)
Definition priority_key (t : json) : res json := py_get t "priority" (JInt 999).

(** [[t for t in tasks if t.get('priority', 999) <= 1]] over the elements. *)
Fixpoint select_high (ts : list json) : res (list json) :=
  match ts with
  | [] => Ok []
  | t :: r =>
      p ← priority_key t;
      b ← py_le p (JInt 1);
      rest ← select_high r;
      Ok (if b : bool then t :: rest else rest)
  end.

(** [list.sort(key=...)]: the keys are computed first, then the items are
    put in ascending key order with [<] only, equal keys keeping their
    order; written as a stable insertion sort. *)
Fixpoint with_keys (l : list json) : res (list (json * json)) :=
  match l with
  | [] => Ok []
  | x :: r =>
      k ← priority_key x;
      kr ← with_keys r;
      Ok ((k, x) :: kr)
  end.

Fixpoint insert_keyed (kx : json * json) (l : list (json * json))
  : res (list (json * json)) :=
  match l with
  | [] => Ok [kx]
  | ky :: l' =>
      b ← py_lt ky.1 kx.1;
      if b : bool then r ← insert_keyed kx l'; Ok (ky :: r)
      else Ok (kx :: l)
  end.

Fixpoint sort_keyed (l : list (json * json)) : res (list (json * json)) :=
  match l with
  | [] => Ok []
  | kx :: r => s ← sort_keyed r; insert_keyed kx s
  end.

Definition sort_by_priority (l : list json) : res (list json) :=
  keyed ← with_keys l;
  s ← sort_keyed keyed;
  Ok (s.*2).

(** [high_priority_tasks] as it stands after line 121. *)
Definition high_priority_tasks (tasks : json) : res (list json) :=
  ts ← py_iter tasks;
  hp ← select_high ts;
  sort_by_priority hp.

(** The numeric priority of a task, when it has one. *)
Definition priority_num (t : json) : option pynum :=
  match priority_key t with
  | Ok p => to_num p
  | Err _ => None
  end.

(** A task passes the filter. *)
Definition eligible (t : json) : Prop :=
  exists n, priority_num t = Some n /\ num_leP n (NFin 1).

(** [data[0]]: the first item of a list, the first character of a string;
    a dict has no key [0] (its keys are strings); the other values are not
    subscriptable. *)
Definition py_index0 (v : json) : res json :=
  match v with
  | JArr (x :: _) => Ok x
  | JArr [] => Err IndexError
  | JStr (String c _) => Ok (JStr (String c EmptyString))
  | JStr EmptyString => Err IndexError
  | JObj _ => Err KeyError
  | _ => Err TypeError
  end.

(* ===================================================================== *)
(** ** The platform the script runs on *)
(* ===================================================================== *)

(** The processes and library functions the script calls. A process call
    answers with the text of the exception it raised ([inl]) or with what
    the process produced ([inr]), and moves the world on. *)
Class Platform := {
  world : Type;
  (** [shutil.which(name)] is truthy *)
  shutil_which : string -> world -> bool;
  (** [subprocess.Popen(argv, ...)] and [communicate()] with both pipes
      captured: raw stdout, raw stderr and the return code *)
  subprocess_popen : list string -> world -> (string + string * string * Z) * world;
  (** [subprocess.run(argv, input=prompt, text=True, check=False)]: the
      return code *)
  subprocess_run : list string -> string -> world -> (string + Z) * world;
  (** [json.loads]; [None] stands for [json.JSONDecodeError] *)
  json_loads : string -> option json;
  (** [str.strip] *)
  str_strip : string -> string;
  (** [str(v)] of a value that is not a [str] *)
  str_of_value : json -> string
}.

(** What [print] is given, one constructor per call site. *)
Inductive message : Type :=
| MsgRunError (cmd : string) (e : string)            (* line 36 *)
| MsgCallingGemini (tools : option (list string))    (* line 56 *)
| MsgAgentFailed (e : string)                        (* line 69 *)
| MsgNotGitRepo                                      (* line 75 *)
| MsgBdNotFound                                      (* line 81 *)
| MsgFetchTasksError (err : string)                  (* line 86 *)
| MsgReadyParseError (out : string)                  (* line 93 *)
| MsgFetchDetailsError (task_id : json) (err : string) (* line 99 *)
| MsgNoMoreWork                                      (* line 124 *)
| MsgNoId                                            (* line 131 *)
| MsgNoDetails (task_id : json)                      (* line 137 *)
| MsgRule                                            (* lines 143, 145 *)
| MsgProcessing (task_id task_type task_title : json) (* line 144 *)
| MsgDecomposing (task_type : json)                  (* line 149 *)
| MsgNotVerified (task_id : json)                    (* line 182 *)
| MsgNotClosed (task_id : json)                      (* line 187 *)
| MsgProcessed (task_id : json).                     (* line 190 *)

(** What an observer of the process sees, in order. *)
Inductive event : Type :=
| EvPrint (m : message)
| EvWhich (name : string) (found : bool)
| EvPopen (argv : list string) (reply : string + string * string * Z)
| EvAgent (argv : list string) (prompt : string) (reply : string + Z).

(** The agent invocations and the tracker or git invocations in a trace. *)
Definition is_agent_call (e : event) : bool :=
  match e with
  | EvAgent _ _ _ => true
  | _ => false
  end.

Definition is_popen_call (e : event) : bool :=
  match e with
  | EvPopen _ _ => true
  | _ => false
  end.

Definition agent_calls (tr : list event) : list event := List.filter is_agent_call tr.
Definition popen_calls (tr : list event) : list event := List.filter is_popen_call tr.

(** How a piece of the script ends: it returns, it calls [sys.exit], or an
    exception escapes. *)
Inductive outcome (A : Type) : Type :=
| Ret (a : A)
| Exit (code : Z)
| Raise (e : pyexn).
Arguments Ret {A} a.
Arguments Exit {A} code.
Arguments Raise {A} e.

(** What the [while True] body does next. *)
Inductive ctl : Type :=
| Continue
| Break.

(** Configuration (lines 13-14). *)
Definition AGENT : string := "gemini".
Definition AGENT_MODEL : string := "gemini-3-pro-preview".

Definition nl : string := String "010"%char EmptyString.
Definition dq : string := String "034"%char EmptyString.

(** The completion reason of the close command (line 173). *)
Definition close_reason : string :=
  "Completed implementation, verified ACs, and checked file bounds.".

(** The close command of line 173 for an id. *)
Definition close_command (id : string) : string :=
  "bd close " +:+ id +:+ " --reason " +:+ dq +:+ close_reason +:+ dq.

(** The exec instruction of line 163 for an id. *)
Definition exec_instruction (id : string) : string :=
  "load and use the exec skill to perform: exec " +:+ id +:+ " --instructions '".

Section Worker.
Context `{P : Platform}.

Record state : Type := { st_world : world; st_trace : list event }.

Definition M (A : Type) : Type := state -> outcome A * state.

#[export] Instance M_ret : MRet M := fun _ a s => (Ret a, s).
#[export] Instance M_bind : MBind M := fun _ _ f m s =>
  match m s with
  | (Ret a, s') => f a s'
  | (Exit c, s') => (Exit c, s')
  | (Raise e, s') => (Raise e, s')
  end.

Definition log (e : event) (s : state) : state :=
  {| st_world := st_world s; st_trace := st_trace s ++ [e] |}.

Definition print (m : message) : M unit := fun s => (Ret tt, log (EvPrint m) s).
Definition sys_exit {A} (code : Z) : M A := fun s => (Exit code, s).
Definition raise {A} (e : pyexn) : M A := fun s => (Raise e, s).

Definition lift {A} (r : res A) : M A :=
  match r with
  | Ok a => mret a
  | Err e => raise e
  end.

Definition which (name : string) : M bool := fun s =>
  let b := shutil_which name (st_world s) in (Ret b, log (EvWhich name b) s).

Definition popen (argv : list string) : M (string + string * string * Z) := fun s =>
  let '(r, w) := subprocess_popen argv (st_world s) in
  (Ret r, {| st_world := w; st_trace := st_trace s ++ [EvPopen argv r] |}).

Definition agent_run (argv : list string) (prompt : string) : M (string + Z) := fun s =>
  let '(r, w) := subprocess_run argv prompt (st_world s) in
  (Ret r, {| st_world := w; st_trace := st_trace s ++ [EvAgent argv prompt r] |}).

(** [f"{v}"] *)
Definition py_str (v : json) : string :=
  match v with
  | JStr s => s
  | _ => str_of_value v
  end.

(** The dict [run_shell_command] returns. *)
Record proc_result : Type :=
  { stdout : string; stderr : string; returncode : Z }.

(** The argument vector, when every item is a [str]. *)
Definition argv_of (cmd : list json) : option (list string) :=
  mapM (fun v => match v with JStr s => Some s | _ => None end) cmd.

(** [x.strip() if x else ""] *)
Definition strip_or_empty (x : string) : string :=
  if (String.length x =? 0)%nat then "" else str_strip x.

(** [run_shell_command(cmd)] with its default arguments, as every caller
    uses it. [Popen] raises [TypeError] on an item that is not a
    [str]; the handler of line 35 catches it and raises [TypeError]
    itself in [' '.join(cmd)]. *)
Definition run_shell_command (cmd : list json) : M (option proc_result) :=
  match argv_of cmd with
  | None => raise TypeError
  | Some argv =>
      r ← popen argv;
      match r with
      | inr (out, err, rc) =>
          mret (Some {| stdout := strip_or_empty out;
                        stderr := strip_or_empty err;
                        returncode := rc |})
      | inl e =>
          print (MsgRunError (String.concat " " argv) e);;
          mret None
      end
  end.

(** Lines 41-48: the command line of the agent. *)
Definition gemini_cmd (allowed_tools : option (list string)) : list string :=
  [AGENT; "--yolo"; "--model"; AGENT_MODEL] ++
  match allowed_tools with
  | Some tools =>
      if (length tools =? 0)%nat then []
      else if bool_decide ("all" ∈ tools) then ["--allowed-tools=all"]
      else (fun tool => "--allowed-tools=" +:+ tool) <$> tools
  | None => []
  end.

Definition call_gemini (prompt : string) (allowed_tools : option (list string)) : M bool :=
  print (MsgCallingGemini allowed_tools);;
  r ← agent_run (gemini_cmd allowed_tools) prompt;
  match r with
  | inr rc => mret (rc =? 0)
  | inl e => print (MsgAgentFailed e);; mret false
  end.

Definition check_git_repo : M unit :=
  result ← run_shell_command [JStr "git"; JStr "rev-parse"; JStr "--is-inside-work-tree"];
  match result with
  | Some r => if returncode r =? 0 then mret tt else print MsgNotGitRepo;; sys_exit 1
  | None => print MsgNotGitRepo;; sys_exit 1
  end.

Definition get_ready_tasks : M json :=
  found ← which "bd";
  (if found : bool then mret tt else print MsgBdNotFound;; sys_exit 1);;
  result ← run_shell_command [JStr "bd"; JStr "ready"; JStr "--json"];
  match result with
  | None =>
      (* line 86 evaluates result["stderr"] with result = None *)
      raise TypeError
  | Some r =>
      if returncode r =? 0 then
        match json_loads (stdout r) with
        | Some tasks => mret tasks
        | None => print (MsgReadyParseError (stdout r));; mret (JArr [])
        end
      else print (MsgFetchTasksError (stderr r));; mret (JArr [])
  end.

(** Returns [JNull] for [None]. *)
Definition get_task_details (task_id : json) : M json :=
  result ← run_shell_command [JStr "bd"; JStr "show"; task_id; JStr "--json"];
  match result with
  | None =>
      (* line 99 evaluates result['stderr'] with result = None *)
      raise TypeError
  | Some r =>
      if returncode r =? 0 then
        match json_loads (stdout r) with
        | Some data => if truthy data then lift (py_index0 data) else mret JNull
        | None => mret JNull
        end
      else print (MsgFetchDetailsError task_id (stderr r));; mret JNull
  end.

(** The prompt of lines 150-154. *)
Definition decompose_prompt (task_id : json) : string :=
  nl +:+ "load and use the spec skill to decompose " +:+ py_str task_id
     +:+ " into actionable " +:+ nl
  +:+ "tasks. Ensure each task has clear acceptance criteria and verification instructions." +:+ nl
  +:+ "Focus on breaking it down into items that can be implemented in single sittings." +:+ nl.

(** The prompt of lines 162-175. *)
Definition exec_prompt (task_id : json) : string :=
  let id := py_str task_id in
  nl +:+ exec_instruction id +:+ nl
  +:+ "    Activate skill-exec. Perform the requested work for " +:+ id +:+ "." +:+ nl
  +:+ "    " +:+ nl
  +:+ "    CRITICAL QUALITY CHECKS:" +:+ nl
  +:+ "    1. FILE SIZE: If any file you modify or create exceeds 600 lines, you MUST decompose it into smaller, logical modules or components. After decomposition, verify that the logic is preserved and there are no regressions." +:+ nl
  +:+ "    2. COMPILATION: Confirm the code compiles cleanly (e.g., npm run build, tsc, or equivalent)." +:+ nl
  +:+ "    3. INSPECTION: Perform a thorough code inspection to confirm ALL acceptance criteria for " +:+ id +:+ " are met." +:+ nl
  +:+ "    " +:+ nl
  +:+ "    FINALIZATION:" +:+ nl
  +:+ "    - Commit your changes using conventional commit messages referencing " +:+ id +:+ "." +:+ nl
  +:+ "    - " +:+ "Close the bead using: " +:+ close_command id +:+ nl
  +:+ "'" +:+ nl.

(** Lines 178-190: check that the agent closed the task. *)
Definition verify_closed (task_id : json) : M ctl :=
  final_task_details ← get_task_details task_id;
  if negb (truthy final_task_details) then
    print (MsgNotVerified task_id);; sys_exit 1
  else
    final_status ← lift (py_get final_task_details "status" JNull);
    if negb (str_eqb final_status "closed") then
      print (MsgNotClosed task_id);; sys_exit 1
    else print (MsgProcessed task_id);; mret Continue.

(** Lines 160-190: step 3, execute the work and check the outcome. *)
Definition execute (task_id : json) : M ctl :=
  call_gemini (exec_prompt task_id) (Some ["all"]);;
  verify_closed task_id.

(** Lines 148-158: step 2, decompose an epic or a feature. *)
Definition decompose (task_id task_type : json) : M ctl :=
  print (MsgDecomposing task_type);;
  success ← call_gemini (decompose_prompt task_id) (Some ["all"]);
  mret Continue.

(** Lines 140-190: announce the task and branch on its type. *)
Definition process (task_id task_details : json) : M ctl :=
  task_type ← lift (py_get task_details "issue_type" JNull);
  task_title ← lift (py_get task_details "title" JNull);
  print MsgRule;;
  print (MsgProcessing task_id task_type task_title);;
  print MsgRule;;
  if str_eqb task_type "epic" || str_eqb task_type "feature" then
    decompose task_id task_type
  else execute task_id.

(** One pass through the body of [while True] (lines 115-190). *)
Definition loop_body : M ctl :=
  tasks ← get_ready_tasks;
  high ← lift (high_priority_tasks tasks);
  match high with
  | [] => print MsgNoMoreWork;; mret Break
  | current_task :: _ =>
      task_id ← lift (py_get current_task "id" JNull);
      if negb (truthy task_id) then print MsgNoId;; mret Continue
      else
        task_details ← get_task_details task_id;
        if negb (truthy task_details) then
          print (MsgNoDetails task_id);; mret Continue
        else process task_id task_details
  end.

(** [while True]: [Some tt] when the loop was left by [break], [None]
    when it is still running after [fuel] passes. *)
Fixpoint while_true (fuel : nat) : M (option unit) :=
  match fuel with
  | O => mret None
  | S n =>
      c ← loop_body;
      match c with
      | Break => mret (Some tt)
      | Continue => while_true n
      end
  end.

Definition main (fuel : nat) : M (option unit) :=
  check_git_repo;;
  while_true fuel.

(** The exit status of the process, once it has ended: 0 when [main]
    returns, the argument of [sys.exit], 1 for an uncaught exception. *)
Definition exit_status (o : outcome (option unit)) : option Z :=
  match o with
  | Ret (Some _) => Some 0
  | Ret None => None
  | Exit c => Some c
  | Raise _ => Some 1
  end.

(** The pass that starts in [s] takes the task whose id is [task_id]; [s1]
    is the state after the ready query. *)
Definition takes (s : state) (task_id : json) (s1 : state) : Prop :=
  exists tasks current_task rest,
    get_ready_tasks s = (Ret tasks, s1) /\
    high_priority_tasks tasks = Ok (current_task :: rest) /\
    py_get current_task "id" JNull = Ok task_id.

(** The pass that starts in [s] takes [task_id] and loads the record [d]
    as its details; [s2] is the state after that fetch. *)
Definition loads (s : state) (task_id : json) (d : gmap string json) (s2 : state) : Prop :=
  exists s1,
    takes s task_id s1 /\ truthy task_id = true /\
    get_task_details task_id s1 = (Ret (JObj d), s2) /\ truthy (JObj d) = true.

(** [task_details.get(k)] on a record. *)
Definition field (d : gmap string json) (k : string) : json := default JNull (d !! k).

(** The state in which the pass branches on the issue type: the three
    lines of lines 143-145 are printed. *)
Definition announced (task_id : json) (d : gmap string json) (s2 : state) : state :=
  log (EvPrint MsgRule)
    (log (EvPrint (MsgProcessing task_id (field d "issue_type") (field d "title")))
       (log (EvPrint MsgRule) s2)).

(** The branch of line 148. *)
Definition is_composite (d : gmap string json) : bool :=
  str_eqb (field d "issue_type") "epic" || str_eqb (field d "issue_type") "feature".

End Worker.

(* ===================================================================== *)
(** ** Vocabulary of the statements *)
(* ===================================================================== *)

(** Comparing two tasks by their numeric priorities. *)
Definition prio_lt (t u : json) : Prop :=
  exists a b, priority_num t = Some a /\ priority_num u = Some b /\ num_ltP a b.

Definition prio_le (t u : json) : Prop :=
  exists a b, priority_num t = Some a /\ priority_num u = Some b /\ num_leP a b.

(** Keys that can be ordered: numbers other than [NaN]. *)
Definition okkey (y : json * json) : Prop :=
  exists n, to_num y.1 = Some n /\ n <> NNan.

Definition key_lt (h y : json * json) : Prop :=
  exists a b, to_num h.1 = Some a /\ to_num y.1 = Some b /\ num_ltP a b.

Definition key_le (h y : json * json) : Prop :=
  exists a b, to_num h.1 = Some a /\ to_num y.1 = Some b /\ num_leP a b.

(** The first item of least key. *)
Definition first_min (l : list (json * json)) (h : json * json) : Prop :=
  exists pre post, l = pre ++ h :: post /\
                   Forall (key_lt h) pre /\ Forall (key_le h) post.

(** A task record from its fields. *)
Definition mk_task (kvs : list (string * json)) : json := JObj (list_to_map kvs).

(** [t] occurs in [s]. *)
Definition contains (s t : string) : Prop := exists a b, s = a +:+ t +:+ b.

Fixpoint has_prefix (t s : string) : bool :=
  match t, s with
  | EmptyString, _ => true
  | String c t', String c' s' => bool_decide (c = c') && has_prefix t' s'
  | String _ _, EmptyString => false
  end.

Fixpoint has_infix (t s : string) : bool :=
  has_prefix t s ||
  match s with
  | String _ s' => has_infix t s'
  | EmptyString => false
  end.

(* ===================================================================== *)
(** ** A platform that replays a script *)
(* ===================================================================== *)

Module Demo.

(** The next answer of the tracker (or git) and of the agent. *)
Inductive reply : Type :=
| TrackerSays (r : string + string * string * Z)
| AgentSays (r : string + Z).

Record script : Type := { bd_on_path : bool; replies : list reply }.

Definition no_such_file : string := "[Errno 2] No such file or directory".

Definition next_popen (argv : list string) (w : script)
  : (string + string * string * Z) * script :=
  match replies w with
  | TrackerSays r :: rest => (r, {| bd_on_path := bd_on_path w; replies := rest |})
  | _ => (inl no_such_file, w)
  end.

Definition next_run (argv : list string) (prompt : string) (w : script)
  : (string + Z) * script :=
  match replies w with
  | AgentSays r :: rest => (r, {| bd_on_path := bd_on_path w; replies := rest |})
  | _ => (inl no_such_file, w)
  end.

Definition quoted (s : string) : string := dq +:+ s +:+ dq.

(** JSON texts the scripts use, and what they decode to. *)
Definition task_text (id : string) (priority : string) (type status : string) : string :=
  "{" +:+ quoted "id" +:+ ": " +:+ quoted id +:+ ", "
      +:+ quoted "priority" +:+ ": " +:+ priority +:+ ", "
      +:+ quoted "issue_type" +:+ ": " +:+ quoted type +:+ ", "
      +:+ quoted "status" +:+ ": " +:+ quoted status +:+ "}".

Definition task_value (id : string) (priority : Z) (type status : string) : json :=
  mk_task [("id", JStr id); ("priority", JInt priority);
           ("issue_type", JStr type); ("status", JStr status)].

Definition object_text : string := "{" +:+ quoted "id" +:+ ": " +:+ quoted "bd-7" +:+ "}".

Definition decode_table : list (string * json) :=
  [ ("[]", JArr []);
    ("[" +:+ task_text "bd-7" "0" "task" "open" +:+ "]",
      JArr [task_value "bd-7" 0 "task" "open"]);
    ("[" +:+ task_text "bd-7" "0" "task" "closed" +:+ "]",
      JArr [task_value "bd-7" 0 "task" "closed"]);
    ("[" +:+ task_text "bd-3" "1" "epic" "open" +:+ "]",
      JArr [task_value "bd-3" 1 "epic" "open"]);
    ("[" +:+ task_text "" "0" "task" "open" +:+ "]",
      JArr [task_value "" 0 "task" "open"]);
    ("[" +:+ task_text "bd-2" "2" "task" "open" +:+ "]",
      JArr [task_value "bd-2" 2 "task" "open"]);
    (object_text, mk_task [("id", JStr "bd-7")]) ].

Fixpoint lookup_text (s : string) (tbl : list (string * json)) : option json :=
  match tbl with
  | [] => None
  | (k, v) :: rest => if bool_decide (k = s) then Some v else lookup_text s rest
  end.

Definition is_space (c : ascii) : bool :=
  let n := nat_of_ascii c in ((9 <=? n) && (n <=? 13) || (n =? 32))%nat.

Fixpoint lstrip (s : string) : string :=
  match s with
  | String c s' => if is_space c then lstrip s' else s
  | EmptyString => EmptyString
  end.

Definition strip (s : string) : string :=
  String.rev (lstrip (String.rev (lstrip s))).

#[export] Instance platform : Platform := {|
  world := script;
  shutil_which := fun _ w => bd_on_path w;
  subprocess_popen := next_popen;
  subprocess_run := next_run;
  json_loads := fun s => lookup_text s decode_table;
  str_strip := strip;
  str_of_value := fun _ => "<value>"
|}.

(** The state in which a script starts. *)
Definition start (on_path : bool) (rs : list reply) : state :=
  {| st_world := {| bd_on_path := on_path; replies := rs |}; st_trace := [] |}.

Definition ok_reply (out : string) : reply := TrackerSays (inr (out, "", 0)).

Definition one_task (id priority type status : string) : string :=
  "[" +:+ task_text id priority type status +:+ "]".

(** No ready task. *)
Definition idle : state := start true [ok_reply "[]"].

(** A task that the agent closes. *)
Definition leaf_run : state :=
  start true [ok_reply (one_task "bd-7" "0" "task" "open");
              ok_reply (one_task "bd-7" "0" "task" "open");
              AgentSays (inr 0);
              ok_reply (one_task "bd-7" "0" "task" "closed")].


(** A ready task whose id is the empty string. *)
Definition noid_run : state := start true [ok_reply (one_task "" "0" "task" "open")].

(** The tracker answers a show query with an object, not a list. *)
Definition object_run : state := start true [ok_reply object_text].

(** The tracker is on the path but cannot be started. *)
Definition broken_run : state :=
  start true [TrackerSays (inl "[Errno 8] Exec format error")].

(** The tracker is not on the path. *)
Definition missing_run : state := start false [].

Definition after_ready (s : state) : state := (get_ready_tasks s).2.
Definition after_fetch (id : string) (s : state) : state :=
  (get_task_details (JStr id) (after_ready s)).2.

(** Ready sets and records of the runs. *)
Definition ready_pair : json :=
  JArr [task_value "bd-2" 1 "epic" "open"; task_value "bd-9" 2 "task" "open";
        task_value "bd-5" 0 "task" "open"; mk_task [("id", JStr "bd-6")]].

Definition leaf_record (status : string) : gmap string json :=
  list_to_map [("id", JStr "bd-7"); ("priority", JInt 0);
               ("issue_type", JStr "task"); ("status", JStr status)].

Definition epic_record : gmap string json :=
  list_to_map [("id", JStr "bd-3"); ("priority", JInt 1);
               ("issue_type", JStr "epic"); ("status", JStr "open")].

End Demo.

(* ===================================================================== *)
(** ** Vocabulary of the further properties *)
(* ===================================================================== *)

(** A task the filter and the sort accept without raising: a record whose
    [priority], when it has one, is a number. *)
Definition well_formed_task (t : json) : Prop :=
  exists d, t = JObj d /\
            (d !! "priority" = None \/
             exists p n, d !! "priority" = Some p /\ to_num p = Some n).

(** The commands the script starts through [run_shell_command]. *)
Definition git_check : list string := ["git"; "rev-parse"; "--is-inside-work-tree"].
Definition bd_ready : list string := ["bd"; "ready"; "--json"].
Definition bd_show (id : string) : list string := ["bd"; "show"; id; "--json"].

Definition query_argv (argv : list string) : Prop :=
  argv = git_check \/ argv = bd_ready \/ exists id, argv = bd_show id.

(** The command line of every agent invocation of [main]. *)
Definition agent_argv : list string :=
  [AGENT; "--yolo"; "--model"; AGENT_MODEL; "--allowed-tools=all"].

(** What [main] may do to the outside: look [bd] up, start one of the
    three queries, invoke the agent with all tools allowed, print. *)
Definition expected_event (e : event) : Prop :=
  match e with
  | EvPrint _ => True
  | EvWhich name _ => name = "bd"
  | EvPopen argv _ => query_argv argv
  | EvAgent argv _ _ => argv = agent_argv
  end.

Section Bounds.
Context `{P : Platform}.

(** [m] adds only expected events, at most [n] agent invocations among
    them, and exits with status 1 if it exits. *)
Definition bounded {A} (n : nat) (m : M A) : Prop :=
  forall s o s',
    m s = (o, s') ->
    exists tr,
      st_trace s' = st_trace s ++ tr /\
      Forall expected_event tr /\
      (length (agent_calls tr) <= n)%nat /\
      forall c, o = Exit c -> c = 1.

End Bounds.

(* ===================================================================== *)
(** ** Further scripts *)
(* ===================================================================== *)

Module Runs.

(** A ready task whose id is the number 7, and a show answer whose first
    item is the number 5. *)
Definition numeric_id_text : string :=
  "[{" +:+ Demo.quoted "id" +:+ ": 7, " +:+ Demo.quoted "priority" +:+ ": 0}]".

Definition decode_table : list (string * json) :=
  Demo.decode_table ++
  [ (numeric_id_text, JArr [mk_task [("id", JInt 7); ("priority", JInt 0)]]);
    ("[5]", JArr [JInt 5]) ].

#[export] Instance platform : Platform := {|
  world := Demo.script;
  shutil_which := fun _ w => Demo.bd_on_path w;
  subprocess_popen := Demo.next_popen;
  subprocess_run := Demo.next_run;
  json_loads := fun s => Demo.lookup_text s decode_table;
  str_strip := Demo.strip;
  str_of_value := fun _ => "<value>"
|}.

Definition start (on_path : bool) (rs : list Demo.reply) : state :=
  {| st_world := {| Demo.bd_on_path := on_path; Demo.replies := rs |}; st_trace := [] |}.

(** The working directory is no git repository. *)
Definition outside_git : state :=
  start true [Demo.TrackerSays (inr ("", "fatal: not a git repository", 128))].

(** The ready query fails. *)
Definition failing_tracker : state :=
  start true [Demo.TrackerSays (inr ("", "Error: database is locked", 1))].

(** The ready task is gone when its details are fetched. *)
Definition vanished : state :=
  start true [Demo.ok_reply (Demo.one_task "bd-7" "0" "task" "open"); Demo.ok_reply "[]"].

Definition numeric_id : state := start true [Demo.ok_reply numeric_id_text].

Definition number_details : state :=
  start true [Demo.ok_reply (Demo.one_task "bd-7" "0" "task" "open"); Demo.ok_reply "[5]"].

(** An epic. *)
Definition epic : state :=
  start true [Demo.ok_reply (Demo.one_task "bd-3" "1" "epic" "open");
              Demo.ok_reply (Demo.one_task "bd-3" "1" "epic" "open");
              Demo.AgentSays (inr 0)].

Definition after_ready (s : state) : state := (get_ready_tasks s).2.
Definition after_fetch (id : string) (s : state) : state :=
  (get_task_details (JStr id) (after_ready s)).2.

End Runs.

(* ===================================================================== *)
(** ** The order on numbers *)
(* ===================================================================== *)

Lemma num_le_spec a b : num_le a b = true <-> num_leP a b.
Proof.
  destruct a, b; simpl; try (split; [discriminate | tauto]); try tauto.
  apply Qle_bool_iff.
Qed.

Lemma num_lt_spec a b : num_lt a b = true <-> num_ltP a b.
Proof.
  unfold num_ltP.
  destruct a, b; simpl; try (split; [discriminate | tauto]); try tauto.
  rewrite negb_true_iff, <- not_true_iff_false, Qle_bool_iff.
  split.
  - intros Hn. split; [|exact Hn].
    apply Qlt_le_weak, Qnot_le_lt, Hn.
  - tauto.
Qed.

Lemma num_leP_trans a b c : num_leP a b -> num_leP b c -> num_leP a c.
Proof.
  destruct a, b, c; simpl; try tauto.
  apply Qle_trans.
Qed.

Lemma num_leP_total a b : a <> NNan -> b <> NNan -> num_leP a b \/ num_leP b a.
Proof.
  intros Ha Hb. destruct a, b; simpl; try tauto.
  destruct (Qlt_le_dec q q0) as [Hlt | Hle]; [left; apply Qlt_le_weak, Hlt | right; exact Hle].
Qed.

Lemma num_ltP_leP a b : num_ltP a b -> num_leP a b.
Proof. intros [? _]; assumption. Qed.

Lemma num_lt_false a b : a <> NNan -> b <> NNan -> num_lt a b = false -> num_leP b a.
Proof.
  intros Ha Hb Hf.
  destruct (num_leP_total a b Ha Hb) as [Hab | Hba]; [|exact Hba].
  destruct (num_le b a) eqn:E; [apply num_le_spec, E|].
  assert (num_lt a b = true) as Ht; [|congruence].
  apply num_lt_spec. split; [exact Hab|].
  rewrite <- num_le_spec. congruence.
Qed.

Lemma num_leP_not_nan a b : num_leP a b -> a <> NNan /\ b <> NNan.
Proof. destruct a, b; simpl; intros Hle; split; congruence || tauto. Qed.

Lemma num_le_one_not_two n : num_leP n (NFin 1) -> ~ num_leP (NFin 2) n.
Proof.
  intros H1 H2. pose proof (num_leP_trans _ _ _ H2 H1) as H.
  simpl in H. unfold Qle in H. simpl in H. lia.
Qed.

(* ===================================================================== *)
(** ** The filter and the sort *)
(* ===================================================================== *)

Ltac res_inv :=
  repeat match goal with
  | H : Ok _ = Ok _ |- _ => injection H as H; try subst
  | H : Err _ = Ok _ |- _ => discriminate H
  | H : mbind _ ?m = Ok _ |- _ =>
      let E := fresh "E" in destruct m eqn:E; simpl in H; [|discriminate H]
  end.

Lemma py_le_one_eligible t p b :
  priority_key t = Ok p -> py_le p (JInt 1) = Ok b ->
  (b = true <-> eligible t).
Proof.
  intros Hk Hle. unfold py_le in Hle.
  destruct (to_num p) as [n|] eqn:En; simpl in Hle; [|discriminate].
  injection Hle as <-. unfold eligible, priority_num. rewrite Hk, En.
  change (NFin (inject_Z 1)) with (NFin 1).
  rewrite num_le_spec. split.
  - intros Hn. exists n. auto.
  - intros (n' & [= <-] & Hn). exact Hn.
Qed.

Lemma select_high_eligible ts l :
  select_high ts = Ok l -> Forall eligible l.
Proof.
  revert l. induction ts as [|t r IH]; intros l Hs; simpl in Hs.
  - injection Hs as <-. constructor.
  - res_inv. destruct a0.
    + constructor; [|apply IH; reflexivity].
      eapply py_le_one_eligible; eauto.
    + apply IH; reflexivity.
Qed.

Lemma select_high_keeps ts l t :
  select_high ts = Ok l -> t ∈ ts -> eligible t -> t ∈ l.
Proof.
  revert l. induction ts as [|x r IH]; intros l Hs Hin Hel; simpl in Hs.
  - inversion Hin.
  - res_inv. apply elem_of_cons in Hin as [-> | Hin].
    + apply (py_le_one_eligible _ _ _ E) in E0. apply E0 in Hel. subst a0. left.
    + specialize (IH _ eq_refl Hin Hel). destruct a0; [right|]; exact IH.
Qed.

Lemma select_high_split ts l pre t post :
  select_high ts = Ok l -> l = pre ++ t :: post ->
  exists pre' post', ts = pre' ++ t :: post' /\
                     select_high pre' = Ok pre /\ select_high post' = Ok post.
Proof.
  revert l pre. induction ts as [|x r IH]; intros l pre Hs Hl; simpl in Hs.
  - injection Hs as <-. destruct pre; discriminate.
  - destruct (priority_key x) as [p|] eqn:Ep; simpl in Hs; [|discriminate].
    destruct (py_le p (JInt 1)) as [b|] eqn:Eb; simpl in Hs; [|discriminate].
    destruct (select_high r) as [l0|] eqn:Er; simpl in Hs; [|discriminate].
    injection Hs as Hs.
    assert (forall pre0, l0 = pre0 ++ t :: post ->
            exists pre' post', x :: r = (x :: pre') ++ t :: post' /\
              select_high pre' = Ok pre0 /\ select_high post' = Ok post) as Hrec.
    { intros pre0 Hl0.
      destruct (IH l0 pre0 eq_refl Hl0) as (pre' & post' & -> & Hp & Hq).
      exists pre', post'. auto. }
    destruct b.
    + destruct pre as [|y pre]; simpl in Hl; rewrite Hl in Hs; injection Hs as Hx Hl0.
      * subst x l0. exists [], r. simpl. auto.
      * subst x. destruct (Hrec pre Hl0) as (pre' & post' & Heq & Hp & Hq).
        exists (y :: pre'), post'. simpl. rewrite Ep. simpl. rewrite Eb. simpl.
        rewrite Hp. simpl. auto.
    + subst l0. destruct (Hrec pre Hl) as (pre' & post' & Heq & Hp & Hq).
      exists (x :: pre'), post'. simpl. rewrite Ep. simpl. rewrite Eb. simpl.
      rewrite Hp. simpl. auto.
Qed.

Lemma key_lt_le h y : key_lt h y -> key_le h y.
Proof. intros (a & b & ? & ? & Hlt). exists a, b. auto using num_ltP_leP. Qed.

Lemma key_le_trans x y z : key_le x y -> key_le y z -> key_le x z.
Proof.
  intros (a & b & Ha & Hb & Hab) (b' & c & Hb' & Hc & Hbc).
  rewrite Hb in Hb'. injection Hb' as <-.
  exists a, c. eauto using num_leP_trans.
Qed.

Lemma key_le_refl x : okkey x -> key_le x x.
Proof.
  intros (n & Hn & Hnan). exists n, n. repeat split; auto.
  destruct (num_leP_total n n Hnan Hnan); assumption.
Qed.

Lemma py_lt_okkey ky kx :
  okkey ky -> okkey kx ->
  (py_lt ky.1 kx.1 = Ok true /\ key_lt ky kx) \/
  (py_lt ky.1 kx.1 = Ok false /\ key_le kx ky).
Proof.
  intros (a & Ha & Hna) (b & Hb & Hnb). unfold py_lt. rewrite Ha, Hb.
  destruct (num_lt a b) eqn:E.
  - left. split; [reflexivity|]. exists a, b. rewrite <- num_lt_spec. auto.
  - right. split; [reflexivity|]. exists b, a. auto using num_lt_false.
Qed.

Lemma insert_keyed_ok kx l :
  okkey kx -> Forall okkey l ->
  exists r, insert_keyed kx l = Ok r /\ r ≡ₚ kx :: l /\
    match l with
    | [] => r = [kx]
    | ky :: _ => (key_lt ky kx /\ exists r', r = ky :: r') \/ (key_le kx ky /\ r = kx :: l)
    end.
Proof.
  intros Hx. induction l as [|ky l IH]; intros Hl; simpl.
  - exists [kx]. auto.
  - apply Forall_cons in Hl as [Hy Hl].
    destruct (py_lt_okkey ky kx Hy Hx) as [[-> Hlt] | [-> Hle]]; simpl.
    + destruct (IH Hl) as (r & -> & Hperm & _). simpl.
      exists (ky :: r). split; [reflexivity|]. split.
      * rewrite Hperm. apply Permutation_swap.
      * left. eauto.
    + exists (kx :: ky :: l). auto.
Qed.

Lemma sort_keyed_ok l :
  Forall okkey l ->
  exists s, sort_keyed l = Ok s /\ s ≡ₚ l /\
            forall h s', s = h :: s' -> first_min l h.
Proof.
  induction l as [|kx l IH]; intros Hl; simpl.
  - exists []. repeat split; auto. discriminate.
  - apply Forall_cons in Hl as [Hx Hl].
    destruct (IH Hl) as (s & -> & Hperm & Hmin). simpl.
    assert (Forall okkey s) as Hs by (rewrite Hperm; exact Hl).
    destruct (insert_keyed_ok kx s Hx Hs) as (r & -> & Hr & Hhead).
    exists r. split; [reflexivity|]. split; [rewrite Hr, Hperm; reflexivity|].
    intros h s' ->.
    destruct s as [|ky s0].
    + injection Hhead as -> ->. apply Permutation_nil_l in Hperm. subst l.
      exists [], []. auto.
    + destruct (Hmin ky s0 eq_refl) as (pre & post & -> & Hpre & Hpost).
      destruct Hhead as [[Hlt (r' & [= -> ->])] | [Hle [= -> ->]]].
      * exists (kx :: pre), post. split; [reflexivity|]. split; [|exact Hpost].
        constructor; assumption.
      * exists [], (pre ++ ky :: post). split; [reflexivity|]. split; [constructor|].
        apply Forall_app. split; [|constructor].
        -- eapply Forall_impl; [exact Hpre|]. intros y Hy. simpl in Hy.
           eauto using key_le_trans, key_lt_le.
        -- exact Hle.
        -- eapply Forall_impl; [exact Hpost|]. intros y Hy. simpl in Hy.
           eauto using key_le_trans.
Qed.

Lemma with_keys_spec l kl :
  with_keys l = Ok kl ->
  kl.*2 = l /\ Forall (fun y => priority_key y.2 = Ok y.1) kl.
Proof.
  revert kl. induction l as [|x r IH]; intros kl Hk; simpl in Hk.
  - injection Hk as <-. split; [reflexivity | constructor].
  - res_inv. destruct (IH _ eq_refl) as [Hl Hf]. simpl. split.
    + f_equal. exact Hl.
    + constructor; [exact E | exact Hf].
Qed.

Lemma with_keys_eligible l :
  Forall eligible l -> exists kl, with_keys l = Ok kl /\ Forall okkey kl.
Proof.
  induction 1 as [|x r Hx Hr (kl & Hkl & Hok)]; simpl.
  - exists []. split; [reflexivity | constructor].
  - destruct Hx as (n & Hn & Hle). unfold priority_num in Hn.
    destruct (priority_key x) as [p|] eqn:Ep; [|discriminate].
    rewrite Hkl. simpl. exists ((p, x) :: kl). split; [reflexivity|].
    constructor; [|exact Hok]. exists n. split; [exact Hn|].
    apply (num_leP_not_nan _ _ Hle).
Qed.

(** After the filter the sort raises nothing: every key it compares is a
    number other than [NaN]. *)
Lemma select_sort_keys ts l :
  select_high ts = Ok l -> exists s, sort_by_priority l = Ok s /\ s ≡ₚ l.
Proof.
  intros Hs. apply select_high_eligible in Hs.
  destruct (with_keys_eligible l Hs) as (kl & Hkl & Hok).
  destruct (sort_keyed_ok kl Hok) as (s & Hsort & Hperm & _).
  unfold sort_by_priority. rewrite Hkl. simpl. rewrite Hsort. simpl.
  exists (s.*2). split; [reflexivity|].
  rewrite Hperm. apply with_keys_spec in Hkl as [-> _]. reflexivity.
Qed.

Lemma key_lt_prio (h y : json * json) :
  priority_key h.2 = Ok h.1 -> priority_key y.2 = Ok y.1 ->
  key_lt h y -> prio_lt h.2 y.2.
Proof.
  intros Hh Hy (a & b & Ha & Hb & Hlt). exists a, b.
  unfold priority_num. rewrite Hh, Hy. auto.
Qed.

Lemma key_le_prio (h y : json * json) :
  priority_key h.2 = Ok h.1 -> priority_key y.2 = Ok y.1 ->
  key_le h y -> prio_le h.2 y.2.
Proof.
  intros Hh Hy (a & b & Ha & Hb & Hlt). exists a, b.
  unfold priority_num. rewrite Hh, Hy. auto.
Qed.

Lemma Forall_keys_prio (R : json * json -> json * json -> Prop)
    (R' : json -> json -> Prop) h l :
  (forall y, priority_key h.2 = Ok h.1 -> priority_key y.2 = Ok y.1 -> R h y -> R' h.2 y.2) ->
  priority_key h.2 = Ok h.1 ->
  Forall (fun y => priority_key y.2 = Ok y.1) l ->
  Forall (R h) l -> Forall (R' h.2) (l.*2).
Proof.
  intros HR Hh Hk HRl. induction l as [|y l IH]; simpl; [constructor|].
  apply Forall_cons in Hk as [Hy Hk]. apply Forall_cons in HRl as [Hry HRl].
  constructor; auto.
Qed.

(** The head of the sorted list is the first item of least priority. *)
Lemma sort_by_priority_head l t rest :
  Forall eligible l -> sort_by_priority l = Ok (t :: rest) ->
  exists pre post, l = pre ++ t :: post /\
                   Forall (prio_lt t) pre /\ Forall (prio_le t) post.
Proof.
  intros Hel Hs.
  destruct (with_keys_eligible l Hel) as (kl & Hkl & Hok).
  destruct (sort_keyed_ok kl Hok) as (s & Hsort & Hperm & Hmin).
  unfold sort_by_priority in Hs. rewrite Hkl in Hs. simpl in Hs.
  rewrite Hsort in Hs. simpl in Hs. injection Hs as Hs.
  destruct s as [|h s']; [discriminate|]. simpl in Hs. injection Hs as Ht Hrest.
  destruct (Hmin h s' eq_refl) as (pre & post & -> & Hpre & Hpost).
  apply with_keys_spec in Hkl as [Hl Hkeys].
  rewrite fmap_app in Hl. simpl in Hl. rewrite Ht in Hl.
  apply Forall_app in Hkeys as [Hkpre Hkpost].
  apply Forall_cons in Hkpost as [Hkh Hkpost].
  exists (pre.*2), (post.*2). split; [symmetry; exact Hl|].
  rewrite <- Ht. split.
  - apply (Forall_keys_prio key_lt prio_lt); auto using key_lt_prio.
  - apply (Forall_keys_prio key_le prio_le); auto using key_le_prio.
Qed.

Example spec_example :
  high_priority_tasks
    (JArr [mk_task [("id", JStr "bd-2"); ("priority", JInt 1); ("issue_type", JStr "epic")];
           mk_task [("id", JStr "bd-9"); ("priority", JInt 2)];
           mk_task [("id", JStr "bd-5"); ("priority", JInt 0); ("issue_type", JStr "task")];
           mk_task [("id", JStr "bd-6")]])
  = Ok [mk_task [("id", JStr "bd-5"); ("priority", JInt 0); ("issue_type", JStr "task")];
        mk_task [("id", JStr "bd-2"); ("priority", JInt 1); ("issue_type", JStr "epic")]].
Proof. vm_compute. reflexivity. Qed.

Lemma high_priority_tasks_inv tasks current_task rest :
  high_priority_tasks tasks = Ok (current_task :: rest) ->
  exists ts pre post,
    py_iter tasks = Ok ts /\ ts = pre ++ current_task :: post /\
    eligible current_task /\
    (forall u, u ∈ pre -> eligible u -> prio_lt current_task u) /\
    (forall u, u ∈ post -> eligible u -> prio_le current_task u).
Proof.
  unfold high_priority_tasks. intros Hh.
  destruct (py_iter tasks) as [ts|] eqn:Ets; simpl in Hh; [|discriminate].
  destruct (select_high ts) as [hp|] eqn:Ehp; simpl in Hh; [|discriminate].
  pose proof (select_high_eligible _ _ Ehp) as Hel.
  destruct (sort_by_priority_head _ _ _ Hel Hh) as (fpre & fpost & Hhp & Hpre & Hpost).
  destruct (select_high_split _ _ _ _ _ Ehp Hhp) as (pre & post & -> & Hp & Hq).
  exists (pre ++ current_task :: post), pre, post.
  split; [reflexivity|]. split; [reflexivity|]. split; [|split].
  - rewrite Hhp in Hel. apply Forall_app in Hel as [_ Hel].
    apply Forall_cons in Hel as [Ht _]. exact Ht.
  - intros u Hu Heu. pose proof (select_high_keeps _ _ _ Hp Hu Heu) as Hin.
    rewrite Forall_forall in Hpre. auto.
  - intros u Hu Heu. pose proof (select_high_keeps _ _ _ Hq Hu Heu) as Hin.
    rewrite Forall_forall in Hpost. auto.
Qed.

Lemma eligible_has_priority t :
  eligible t ->
  exists d p n, t = JObj d /\ d !! "priority" = Some p /\ to_num p = Some n /\
                num_leP n (NFin 1).
Proof.
  intros (n & Hn & Hle). unfold priority_num, priority_key, py_get in Hn.
  destruct t; try discriminate.
  destruct (d !! "priority") as [p|] eqn:Ep; simpl in Hn.
  - exists d, p, n. auto.
  - injection Hn as <-. simpl in Hle. unfold Qle in Hle. simpl in Hle. lia.
Qed.

(** C1: whatever the tracker returned, the task the loop takes
    ([high_priority_tasks[0]]) is one of the returned tasks, has a
    [priority] field, and the field is a number that is at most 1; so a
    task without the field or with priority 2 or more is never taken. *)
Theorem selected_priority_at_most_one tasks current_task rest :
  high_priority_tasks tasks = Ok (current_task :: rest) ->
  exists ts d p n,
    py_iter tasks = Ok ts /\ current_task ∈ ts /\
    current_task = JObj d /\ d !! "priority" = Some p /\ to_num p = Some n /\
    num_leP n (NFin 1) /\ ~ num_leP (NFin 2) n.
Proof.
  intros Hh.
  destruct (high_priority_tasks_inv _ _ _ Hh) as (ts & pre & post & Hts & -> & Hel & _).
  destruct (eligible_has_priority _ Hel) as (d & p & n & -> & Hp & Hn & Hle).
  exists (pre ++ JObj d :: post), d, p, n.
  repeat split; auto using num_le_one_not_two.
  apply elem_of_app. right. left.
Qed.

(** C2: the task the loop takes is an eligible task of least numeric
    priority, and the earliest such one in the order the tracker returned:
    every eligible task before it has a strictly greater priority, every
    eligible task after it a greater or equal one. *)
Theorem selected_is_first_least tasks current_task rest :
  high_priority_tasks tasks = Ok (current_task :: rest) ->
  exists ts pre post,
    py_iter tasks = Ok ts /\ ts = pre ++ current_task :: post /\
    eligible current_task /\
    (forall u, u ∈ pre -> eligible u -> prio_lt current_task u) /\
    (forall u, u ∈ post -> eligible u -> prio_le current_task u).
Proof. apply high_priority_tasks_inv. Qed.

(** When the filter raises nothing and an eligible task is present, a task
    is taken. *)
Lemma eligible_task_taken tasks ts hp t :
  py_iter tasks = Ok ts -> select_high ts = Ok hp -> t ∈ ts -> eligible t ->
  exists current_task rest, high_priority_tasks tasks = Ok (current_task :: rest).
Proof.
  intros Hts Hhp Hin Hel. unfold high_priority_tasks. rewrite Hts. simpl.
  rewrite Hhp. simpl.
  destruct (select_sort_keys _ _ Hhp) as (s & -> & Hperm).
  pose proof (select_high_keeps _ _ _ Hhp Hin Hel) as Ht.
  destruct s as [|c rest]; [|eauto].
  apply Permutation_nil_l in Hperm. subst hp. inversion Ht.
Qed.

(* ===================================================================== *)
(** ** The script *)
(* ===================================================================== *)

Lemma agent_calls_app tr tr' : agent_calls (tr ++ tr') = agent_calls tr ++ agent_calls tr'.
Proof. apply List.filter_app. Qed.

Lemma popen_calls_app tr tr' : popen_calls (tr ++ tr') = popen_calls tr ++ popen_calls tr'.
Proof. apply List.filter_app. Qed.

Ltac unfold_run :=
  unfold run_shell_command, which, popen, agent_run, print, sys_exit, raise, lift, log,
    mbind, M_bind, mret, M_ret; simpl.

Ltac trace_done :=
  simpl; rewrite ?agent_calls_app, ?popen_calls_app; simpl; rewrite ?app_nil_r; try reflexivity.

Section WorkerFacts.
Context `{P : Platform}.

Lemma bind_ret {A B} (m : M A) (k : A -> M B) s a s' :
  m s = (Ret a, s') -> (m ≫= k) s = k a s'.
Proof. intros Hm. unfold mbind, M_bind. rewrite Hm. reflexivity. Qed.

Lemma bind_exit {A B} (m : M A) (k : A -> M B) s c s' :
  m s = (Exit c, s') -> (m ≫= k) s = (Exit c, s').
Proof. intros Hm. unfold mbind, M_bind. rewrite Hm. reflexivity. Qed.

Lemma bind_raise {A B} (m : M A) (k : A -> M B) s e s' :
  m s = (Raise e, s') -> (m ≫= k) s = (Raise e, s').
Proof. intros Hm. unfold mbind, M_bind. rewrite Hm. reflexivity. Qed.

(** [run_shell_command] never exits and invokes no agent. *)
Lemma run_shell_command_trace cmd s o s' :
  run_shell_command cmd s = (o, s') ->
  agent_calls (st_trace s') = agent_calls (st_trace s) /\
  (forall c, o <> Exit c).
Proof.
  unfold run_shell_command. destruct (argv_of cmd) as [argv|].
  - unfold mbind, M_bind, popen.
    destruct (subprocess_popen argv (st_world s)) as [[e | [[out err] rc]] w];
      intros [= <- <-]; simpl; rewrite agent_calls_app; simpl;
      rewrite ?agent_calls_app; simpl; rewrite ?app_nil_r; split; congruence.
  - intros [= <- <-]. split; congruence.
Qed.

(** [call_gemini] always returns; it adds the announcement, one agent
    invocation and, when the invocation raised, the failure line. *)
Lemma call_gemini_returns prompt tools s :
  exists ok s' r,
    call_gemini prompt tools s = (Ret ok, s') /\
    st_trace s' = st_trace s ++
                  EvPrint (MsgCallingGemini tools) :: EvAgent (gemini_cmd tools) prompt r ::
                  match r with
                  | inl e => [EvPrint (MsgAgentFailed e)]
                  | inr _ => []
                  end.
Proof.
  unfold call_gemini, mbind, M_bind, print, agent_run. simpl.
  destruct (subprocess_run (gemini_cmd tools) prompt (st_world s)) as [[e | rc] w]; simpl.
  - eexists _, _, (inl e). split; [reflexivity|]. simpl.
    rewrite <- !app_assoc. reflexivity.
  - eexists _, _, (inr rc). split; [reflexivity|]. simpl.
    rewrite <- !app_assoc. reflexivity.
Qed.

Lemma get_ready_tasks_no_agent s o s' :
  get_ready_tasks s = (o, s') -> agent_calls (st_trace s') = agent_calls (st_trace s).
Proof.
  unfold get_ready_tasks. unfold_run.
  destruct (shutil_which "bd" (st_world s)); simpl; [|intros [= <- <-]; trace_done].
  destruct (subprocess_popen _ _) as [[e | [[out err] rc]] w]; simpl;
    [intros [= <- <-]; trace_done|].
  destruct (rc =? 0); [|intros [= <- <-]; trace_done].
  destruct (json_loads _); intros [= <- <-]; trace_done.
Qed.

Lemma loop_body_taken s task_id s1 :
  takes s task_id s1 ->
  loop_body s =
  (if negb (truthy task_id) then print MsgNoId;; mret Continue
   else
     task_details ← get_task_details task_id;
     if negb (truthy task_details) then print (MsgNoDetails task_id);; mret Continue
     else process task_id task_details) s1.
Proof.
  intros (tasks & current_task & rest & Hready & Hhigh & Hid).
  unfold loop_body, mbind, M_bind, lift. rewrite Hready, Hhigh.
  unfold mret at 1, M_ret at 1. rewrite Hid. reflexivity.
Qed.

Lemma loop_body_loaded s task_id d s2 :
  loads s task_id d s2 -> loop_body s = process task_id (JObj d) s2.
Proof.
  intros (s1 & Htakes & Hid & Hfetch & Hd).
  rewrite (loop_body_taken _ _ _ Htakes), Hid. simpl.
  rewrite (bind_ret _ _ _ _ _ Hfetch), Hd. reflexivity.
Qed.

Lemma process_record task_id d s2 :
  process task_id (JObj d) s2 =
  (if is_composite d then decompose task_id (field d "issue_type")
   else execute task_id) (announced task_id d s2).
Proof. reflexivity. Qed.

(** A fetch that returns was given a [str] id. *)
Lemma get_task_details_str task_id s v s' :
  get_task_details task_id s = (Ret v, s') -> exists id, task_id = JStr id.
Proof.
  unfold get_task_details, mbind at 1, M_bind at 1, run_shell_command.
  destruct task_id; simpl; try discriminate. eauto.
Qed.

End WorkerFacts.

Section LoopControl.
Context `{P : Platform}.

Lemma str_eqb_spec v s : str_eqb v s = true <-> v = JStr s.
Proof.
  destruct v; simpl; try (split; [discriminate | congruence]).
  rewrite bool_decide_eq_true. split; congruence.
Qed.

Lemma str_eqb_false v s : str_eqb v s = false <-> v <> JStr s.
Proof. rewrite <- str_eqb_spec. destruct (str_eqb v s); split; congruence. Qed.

Lemma is_composite_spec d :
  is_composite d = true <->
  field d "issue_type" = JStr "epic" \/ field d "issue_type" = JStr "feature".
Proof. unfold is_composite. rewrite orb_true_iff, !str_eqb_spec. reflexivity. Qed.

Lemma is_composite_false d :
  is_composite d = false <->
  field d "issue_type" <> JStr "epic" /\ field d "issue_type" <> JStr "feature".
Proof. unfold is_composite. rewrite orb_false_iff, !str_eqb_false. reflexivity. Qed.

(** What a fetch adds to the trace: no agent invocation and no lookup of
    the tracker executable; and a fetch never exits. *)
Lemma get_task_details_trace task_id s o s' :
  get_task_details task_id s = (o, s') ->
  (exists tr, st_trace s' = st_trace s ++ tr /\ agent_calls tr = [] /\
              (forall name found, EvWhich name found ∉ tr) /\
              EvPrint MsgBdNotFound ∉ tr) /\
  forall c, o <> Exit c.
Proof.
  assert (forall (tr : list event),
            tr = [] \/
            (exists argv r, tr = [EvPopen argv r]) \/
            (exists argv r m, m <> MsgBdNotFound /\ tr = [EvPopen argv r; EvPrint m]) ->
            agent_calls tr = [] /\ (forall name found, EvWhich name found ∉ tr) /\
            EvPrint MsgBdNotFound ∉ tr) as Htr.
  { intros tr [-> | [(argv & r & ->) | (argv & r & m & Hm & ->)]];
      (split; [reflexivity|]); split; try intros name found; intros Hin;
      repeat (apply elem_of_cons in Hin as [Hin | Hin]; [congruence|]);
      inversion Hin. }
  unfold get_task_details, run_shell_command.
  destruct (argv_of _) as [argv|]; unfold_run.
  - destruct (subprocess_popen _ _) as [[e | [[out err] rc]] w]; simpl.
    + intros [= <- <-]. split; [|congruence]. simpl. rewrite <- app_assoc.
      eexists. split; [reflexivity|]. apply Htr. right. right.
      eexists _, _, _. split; [|reflexivity]. discriminate.
    + destruct (rc =? 0).
      * destruct (json_loads _) as [data|].
        -- destruct (truthy data).
           ++ destruct (py_index0 data); intros [= <- <-]; (split; [|congruence]);
                simpl; eexists; (split; [reflexivity|]); apply Htr; eauto.
           ++ intros [= <- <-]. split; [|congruence]. simpl. eexists.
              split; [reflexivity|]. apply Htr. eauto.
        -- intros [= <- <-]. split; [|congruence]. simpl. eexists.
           split; [reflexivity|]. apply Htr. eauto.
      * intros [= <- <-]. split; [|congruence]. simpl. rewrite <- app_assoc. eexists.
        split; [reflexivity|]. apply Htr. right. right.
        eexists _, _, _. split; [|reflexivity]. discriminate.
  - intros [= <- <-]. split; [|congruence]. exists []. rewrite app_nil_r.
    split; [reflexivity|]. apply Htr. auto.
Qed.

(** The trace only grows through the check of lines 178-190. *)
Lemma verify_closed_trace task_id s o s' :
  verify_closed task_id s = (o, s') -> exists tr, st_trace s' = st_trace s ++ tr.
Proof.
  unfold verify_closed, mbind at 1, M_bind at 1.
  destruct (get_task_details task_id s) as [[final | c | e] s1] eqn:Ef;
    apply get_task_details_trace in Ef as [(tr & Htr & _) _].
  - destruct (truthy final); simpl.
    + destruct final; unfold_run; try (intros [= <- <-]; eauto).
      destruct (str_eqb _ _); simpl; intros [= <- <-]; simpl; rewrite Htr, <- app_assoc; eauto.
    + unfold_run. intros [= <- <-]. simpl. rewrite Htr, <- app_assoc. eauto.
  - intros [= <- <-]. eauto.
  - intros [= <- <-]. eauto.
Qed.





(** The task a pass takes passed the filter. *)
Lemma takes_eligible s task_id s1 :
  takes s task_id s1 ->
  exists current_task, eligible current_task /\ py_get current_task "id" JNull = Ok task_id.
Proof.
  intros (tasks & current_task & rest & _ & Hhigh & Hid).
  destruct (high_priority_tasks_inv _ _ _ Hhigh) as (_ & _ & _ & _ & _ & Hel & _).
  eauto.
Qed.

(** C3: when no ready task passes the filter, the pass prints the
    no-more-work line and leaves the loop, so [main] returns and the
    process ends with status 0; the pass invokes no agent. *)
Theorem no_eligible_task_ends_loop s tasks s1 :
  get_ready_tasks s = (Ret tasks, s1) ->
  high_priority_tasks tasks = Ok [] ->
  let s' := log (EvPrint MsgNoMoreWork) s1 in
  loop_body s = (Ret Break, s') /\
  agent_calls (st_trace s') = agent_calls (st_trace s) /\
  forall fuel,
    while_true (S fuel) s = (Ret (Some tt), s') /\
    exit_status (while_true (S fuel) s).1 = Some 0.
Proof.
  intros Hready Hhigh s'.
  assert (loop_body s = (Ret Break, s')) as Hbody.
  { unfold loop_body, mbind, M_bind, lift. rewrite Hready, Hhigh. reflexivity. }
  split; [exact Hbody|]. split.
  - subst s'. simpl. rewrite agent_calls_app, app_nil_r.
    apply (get_ready_tasks_no_agent _ _ _ Hready).
  - intros fuel. simpl. unfold mbind, M_bind. rewrite Hbody. auto.
Qed.



(** C10: a task whose id is the empty string is skipped like a task
    without id: the pass prints the skip line and goes on to the next
    selection, with no fetch and no agent invocation after the ready
    query. *)
Theorem empty_id_skipped s tasks d rest s1 :
  get_ready_tasks s = (Ret tasks, s1) ->
  high_priority_tasks tasks = Ok (JObj d :: rest) ->
  d !! "id" = Some (JStr "") ->
  let s' := log (EvPrint MsgNoId) s1 in
  loop_body s = (Ret Continue, s') /\
  popen_calls (st_trace s') = popen_calls (st_trace s1) /\
  agent_calls (st_trace s') = agent_calls (st_trace s1) /\
  (forall s0 tasks0 d0 rest0 s10,
      get_ready_tasks s0 = (Ret tasks0, s10) ->
      high_priority_tasks tasks0 = Ok (JObj d0 :: rest0) ->
      d0 !! "id" = None ->
      loop_body s0 = (Ret Continue, log (EvPrint MsgNoId) s10)).
Proof.
  intros Hready Hhigh Hid s'.
  split; [|split; [|split]].
  - rewrite (loop_body_taken s (JStr "") s1); [reflexivity|].
    exists tasks, (JObj d), rest. simpl. rewrite Hid. auto.
  - subst s'. simpl. rewrite popen_calls_app, app_nil_r. reflexivity.
  - subst s'. simpl. rewrite agent_calls_app, app_nil_r. reflexivity.
  - intros s0 tasks0 d0 rest0 s10 Hready0 Hhigh0 Hid0.
    rewrite (loop_body_taken s0 JNull s10); [reflexivity|].
    exists tasks0, (JObj d0), rest0. simpl. rewrite Hid0. auto.
Qed.

End LoopControl.

(* ===================================================================== *)
(** ** The tracker adapter and the prompts *)
(* ===================================================================== *)

Lemma append_cons x (a b : string) : String x a +:+ b = String x (a +:+ b).
Proof. reflexivity. Qed.

Lemma append_empty (b : string) : "" +:+ b = b.
Proof. reflexivity. Qed.

Lemma append_assoc (a b c : string) : (a +:+ b) +:+ c = a +:+ b +:+ c.
Proof.
  induction a as [|x a IH]; [reflexivity|].
  rewrite !append_cons. f_equal. exact IH.
Qed.

Lemma append_empty_r (a : string) : a +:+ "" = a.
Proof.
  induction a as [|x a IH]; [reflexivity|].
  rewrite append_cons. f_equal. exact IH.
Qed.

Lemma contains_here t b : contains (t +:+ b) t.
Proof. exists "", b. reflexivity. Qed.

Lemma contains_skip a s t : contains s t -> contains (a +:+ s) t.
Proof.
  intros (a' & b & ->). exists (a +:+ a'), b. rewrite append_assoc. reflexivity.
Qed.

Lemma contains_end t : contains t t.
Proof. exists "", "". rewrite append_empty, append_empty_r. reflexivity. Qed.

Lemma has_prefix_append t b : has_prefix t (t +:+ b) = true.
Proof.
  induction t as [|x t IH]; [reflexivity|].
  rewrite append_cons. simpl.
  rewrite bool_decide_eq_true_2 by reflexivity. exact IH.
Qed.

Lemma contains_has_infix s t : contains s t -> has_infix t s = true.
Proof.
  intros (a & b & ->). induction a as [|x a IH].
  - rewrite append_empty.
    destruct (t +:+ b) eqn:E; simpl; rewrite <- E, has_prefix_append; reflexivity.
  - rewrite append_cons. simpl. rewrite IH. apply orb_true_r.
Qed.

Lemma has_prefix_inv t s : has_prefix t s = true -> exists b, s = t +:+ b.
Proof.
  revert s. induction t as [|x t IH]; intros s Hp.
  - exists s. reflexivity.
  - destruct s as [|y s]; simpl in Hp; [discriminate|].
    apply andb_true_iff in Hp as [Hxy Hp]. apply bool_decide_eq_true in Hxy as ->.
    destruct (IH _ Hp) as [b ->]. exists b. reflexivity.
Qed.

Lemma has_infix_contains s t : has_infix t s = true -> contains s t.
Proof.
  induction s as [|y s IH]; simpl; intros Hi.
  - rewrite orb_false_r in Hi. apply has_prefix_inv in Hi as [b ->]. apply contains_here.
  - apply orb_true_iff in Hi as [Hp | Hi].
    + apply has_prefix_inv in Hp as [b ->]. apply contains_here.
    + apply (contains_skip (String y "")), IH, Hi.
Qed.

Lemma contains_trans s t u : contains s t -> contains t u -> contains s u.
Proof.
  intros (a & b & ->) (a' & b' & ->). exists (a +:+ a'), (b' +:+ b).
  rewrite !append_assoc. reflexivity.
Qed.

Ltac find_part := solve [apply contains_here | apply contains_end] || (apply contains_skip; find_part).

Section Adapter.
Context `{P : Platform}.

(** What the ready query returns, by the answer of the tracker. *)
Lemma get_ready_tasks_answers s r w :
  shutil_which "bd" (st_world s) = true ->
  subprocess_popen ["bd"; "ready"; "--json"] (st_world s) = (r, w) ->
  let s1 := {| st_world := w;
               st_trace := st_trace s ++ [EvWhich "bd" true; EvPopen ["bd"; "ready"; "--json"] r] |} in
  get_ready_tasks s =
  match r with
  | inl e => (Raise TypeError, log (EvPrint (MsgRunError "bd ready --json" e)) s1)
  | inr (out, err, rc) =>
      if rc =? 0 then
        match json_loads (strip_or_empty out) with
        | Some tasks => (Ret tasks, s1)
        | None => (Ret (JArr []), log (EvPrint (MsgReadyParseError (strip_or_empty out))) s1)
        end
      else (Ret (JArr []), log (EvPrint (MsgFetchTasksError (strip_or_empty err))) s1)
  end.
Proof.
  intros Hwhich Hpopen s1. subst s1. unfold get_ready_tasks. unfold_run.
  rewrite Hwhich. simpl. rewrite Hpopen. rewrite <- !app_assoc. simpl.
  destruct r as [e | [[out err] rc]]; simpl.
  - rewrite <- !app_assoc. reflexivity.
  - destruct (rc =? 0); [destruct (json_loads _)|]; simpl; rewrite <- ?app_assoc; reflexivity.
Qed.

(** C7, as the code has it: when the tracker ran, the fetch returns [None]
    for a return code other than 0 (after the diagnostic), for output
    that is not JSON and for a decoded value that is falsy, the empty list
    among them; it returns the first item of a decoded list that is not
    empty. *)
Theorem get_task_details_answers s id out err rc w :
  subprocess_popen ["bd"; "show"; id; "--json"] (st_world s) = (inr (out, err, rc), w) ->
  let s1 := {| st_world := w;
               st_trace := st_trace s ++
                             [EvPopen ["bd"; "show"; id; "--json"] (inr (out, err, rc))] |} in
  (rc <> 0 ->
   get_task_details (JStr id) s =
   (Ret JNull, log (EvPrint (MsgFetchDetailsError (JStr id) (strip_or_empty err))) s1)) /\
  (rc = 0 -> json_loads (strip_or_empty out) = None ->
   get_task_details (JStr id) s = (Ret JNull, s1)) /\
  (rc = 0 -> forall data, json_loads (strip_or_empty out) = Some data -> truthy data = false ->
   get_task_details (JStr id) s = (Ret JNull, s1)) /\
  (rc = 0 -> forall x l, json_loads (strip_or_empty out) = Some (JArr (x :: l)) ->
   get_task_details (JStr id) s = (Ret x, s1)).
Proof.
  intros Hpopen s1. subst s1. unfold get_task_details. unfold_run. rewrite Hpopen. simpl.
  split; [|split; [|split]].
  - intros Hrc. apply Z.eqb_neq in Hrc. rewrite Hrc. reflexivity.
  - intros -> ->. reflexivity.
  - intros -> data -> ->. reflexivity.
  - intros -> x l ->. reflexivity.
Qed.

(** C8, as the code has it: when the tracker executable is not found,
    the ready query prints the not-found line and ends the process with
    status 1 without starting the tracker. The fetch of one task has no
    such check: it never looks the executable up, never prints that line
    and never exits. *)
Theorem get_ready_tasks_requires_bd s :
  shutil_which "bd" (st_world s) = false ->
  get_ready_tasks s = (Exit 1, log (EvPrint MsgBdNotFound) (log (EvWhich "bd" false) s)) /\
  popen_calls (st_trace (get_ready_tasks s).2) = popen_calls (st_trace s) /\
  forall task_id o s',
    get_task_details task_id s = (o, s') ->
    (exists tr, st_trace s' = st_trace s ++ tr /\
                (forall name found, EvWhich name found ∉ tr) /\
                EvPrint MsgBdNotFound ∉ tr) /\
    forall c, o <> Exit c.
Proof.
  intros Hwhich.
  assert (get_ready_tasks s = (Exit 1, log (EvPrint MsgBdNotFound) (log (EvWhich "bd" false) s)))
    as Hready.
  { unfold get_ready_tasks. unfold_run. rewrite Hwhich. reflexivity. }
  split; [exact Hready|]. split.
  - rewrite Hready. trace_done.
  - intros task_id o s' Hfetch.
    destruct (get_task_details_trace _ _ _ _ Hfetch) as [(tr & Htr & _ & Hw & Hnf) Hexit].
    split; [|exact Hexit]. exists tr. auto.
Qed.

(** C9, as the code has it: on the execute path the id is a [str], the
    agent is invoked with the exec prompt, and the prompt holds the id in
    its exec instruction and as the argument of the close command; the
    reason of the close command is the fixed text [close_reason], the
    same for every id. *)
Theorem exec_prompt_names_task s task_id d s2 :
  loads s task_id d s2 ->
  field d "issue_type" <> JStr "epic" ->
  field d "issue_type" <> JStr "feature" ->
  exists id r,
    task_id = JStr id /\
    EvAgent (gemini_cmd (Some ["all"])) (exec_prompt task_id) r ∈ st_trace (loop_body s).2 /\
    contains (exec_prompt task_id) (exec_instruction id) /\
    contains (exec_instruction id) ("exec " +:+ id) /\
    contains (exec_prompt task_id) (close_command id) /\
    close_command id = "bd close " +:+ id +:+ " --reason " +:+ dq +:+ close_reason +:+ dq /\
    contains (exec_prompt task_id) (" --reason " +:+ dq +:+ close_reason +:+ dq).
Proof.
  intros Hloads Hepic Hfeature.
  destruct Hloads as (s1 & Htakes & Hid & Hfetch & Hd).
  destruct (get_task_details_str _ _ _ _ Hfetch) as [id ->].
  assert (loads s (JStr id) d s2) as Hloads by (exists s1; auto).
  destruct (call_gemini_returns (exec_prompt (JStr id)) (Some ["all"])
              (announced (JStr id) d s2)) as (ok & s4 & r & Hcall & Htr).
  assert (contains (exec_prompt (JStr id)) (close_command id)) as Hclose
    by (unfold exec_prompt; simpl; find_part).
  exists id, r. split; [reflexivity|]. split; [|repeat split].
  - rewrite (loop_body_loaded _ _ _ _ Hloads), process_record.
    destruct (is_composite_false d) as [_ ->]; [|auto].
    unfold execute. rewrite (bind_ret _ _ _ _ _ Hcall).
    destruct (verify_closed (JStr id) s4) as [o s6] eqn:Ev.
    apply verify_closed_trace in Ev as [tr Hs6]. simpl. rewrite Hs6, Htr.
    apply elem_of_app. left. apply elem_of_app. right. right. left.
  - unfold exec_prompt. simpl. find_part.
  - unfold exec_instruction.
    change "load and use the exec skill to perform: exec "
      with ("load and use the exec skill to perform: " +:+ "exec ").
    rewrite append_assoc. apply contains_skip.
    exists "", " --instructions '". simpl. rewrite append_assoc. reflexivity.
  - exact Hclose.
  - apply (contains_trans _ _ _ Hclose). unfold close_command. find_part.
Qed.

End Adapter.

(* ===================================================================== *)
(** ** Runs on the scripted platform *)
(* ===================================================================== *)

#[local] Existing Instance Demo.platform.

Lemma selected_priority_at_most_one_witness :
  exists ts d p n,
    py_iter Demo.ready_pair = Ok ts /\ Demo.task_value "bd-5" 0 "task" "open" ∈ ts /\
    Demo.task_value "bd-5" 0 "task" "open" = JObj d /\
    d !! "priority" = Some p /\ to_num p = Some n /\
    num_leP n (NFin 1) /\ ~ num_leP (NFin 2) n.
Proof.
  apply (selected_priority_at_most_one Demo.ready_pair _ [Demo.task_value "bd-2" 1 "epic" "open"]).
  vm_compute. reflexivity.
Defined.

Lemma selected_is_first_least_witness :
  exists ts pre post,
    py_iter Demo.ready_pair = Ok ts /\
    ts = pre ++ Demo.task_value "bd-5" 0 "task" "open" :: post /\
    eligible (Demo.task_value "bd-5" 0 "task" "open") /\
    (forall u, u ∈ pre -> eligible u -> prio_lt (Demo.task_value "bd-5" 0 "task" "open") u) /\
    (forall u, u ∈ post -> eligible u -> prio_le (Demo.task_value "bd-5" 0 "task" "open") u).
Proof.
  apply (selected_is_first_least Demo.ready_pair _ [Demo.task_value "bd-2" 1 "epic" "open"]).
  vm_compute. reflexivity.
Defined.

Lemma no_eligible_task_ends_loop_witness :
  loop_body Demo.idle = (Ret Break, log (EvPrint MsgNoMoreWork) (Demo.after_ready Demo.idle)) /\
  exit_status (while_true 1 Demo.idle).1 = Some 0.
Proof.
  destruct (no_eligible_task_ends_loop Demo.idle (JArr []) (Demo.after_ready Demo.idle))
    as (Hbody & _ & Hloop).
  - vm_compute. reflexivity.
  - vm_compute. reflexivity.
  - split; [exact Hbody | apply (Hloop 0%nat)].
Defined.

Lemma leaf_run_loads :
  loads Demo.leaf_run (JStr "bd-7") (Demo.leaf_record "open") (Demo.after_fetch "bd-7" Demo.leaf_run).
Proof.
  exists (Demo.after_ready Demo.leaf_run). split; [|split; [|split]].
  - exists (JArr [JObj (Demo.leaf_record "open")]), (JObj (Demo.leaf_record "open")), [].
    split; [|split]; vm_compute; reflexivity.
  - reflexivity.
  - vm_compute. reflexivity.
  - vm_compute. reflexivity.
Qed.




Lemma empty_id_skipped_witness :
  loop_body Demo.noid_run
  = (Ret Continue, log (EvPrint MsgNoId) (Demo.after_ready Demo.noid_run)).
Proof.
  apply (empty_id_skipped Demo.noid_run
           (JArr [Demo.task_value "" 0 "task" "open"])
           (list_to_map [("id", JStr ""); ("priority", JInt 0);
                         ("issue_type", JStr "task"); ("status", JStr "open")]) []).
  - vm_compute. reflexivity.
  - vm_compute. reflexivity.
  - vm_compute. reflexivity.
Defined.

(** C6: the tracker is found but cannot be started: [run_shell_command]
    returns [None], and line 86 raises [TypeError] where the claim has an
    empty list after a diagnostic. *)
Lemma get_ready_tasks_start_failure :
  get_ready_tasks Demo.broken_run =
  (Raise TypeError,
   {| st_world := {| Demo.bd_on_path := true; Demo.replies := [] |};
      st_trace := [EvWhich "bd" true;
                   EvPopen ["bd"; "ready"; "--json"] (inl "[Errno 8] Exec format error");
                   EvPrint (MsgRunError "bd ready --json" "[Errno 8] Exec format error")] |}).
Proof. vm_compute. reflexivity. Qed.

(** C7 fails on an answer that is a JSON object: the tracker ran with
    return code 0, its output decodes, the decoded value is no list of
    task records, and the fetch raises [KeyError] instead of returning
    [None]. *)
Lemma get_task_details_object_answer :
  json_loads Demo.object_text = Some (mk_task [("id", JStr "bd-7")]) /\
  (get_task_details (JStr "bd-7") Demo.object_run).1 = Raise KeyError /\
  (get_task_details (JStr "bd-7") Demo.object_run).1 <> Ret JNull.
Proof. split; [|split]; vm_compute; [reflexivity | reflexivity | discriminate]. Qed.

Lemma get_task_details_answers_witness :
  get_task_details (JStr "bd-7") (Demo.start true [Demo.ok_reply "[]"])
  = (Ret JNull,
     {| st_world := {| Demo.bd_on_path := true; Demo.replies := [] |};
        st_trace := [EvPopen ["bd"; "show"; "bd-7"; "--json"] (inr ("[]", "", 0))] |}).
Proof.
  destruct (get_task_details_answers (Demo.start true [Demo.ok_reply "[]"]) "bd-7" "[]" "" 0
              {| Demo.bd_on_path := true; Demo.replies := [] |}) as (_ & _ & Hfalsy & _).
  - reflexivity.
  - apply (Hfalsy eq_refl (JArr [])); reflexivity.
Defined.

(** C8 fails for the fetch of one task: with the tracker executable
    missing it does not exit and does not print the not-found line; the
    start of the tracker fails and the [TypeError] of line 99 escapes. *)
Lemma get_task_details_missing_tracker :
  shutil_which "bd" (st_world Demo.missing_run) = false /\
  get_task_details (JStr "bd-7") Demo.missing_run =
  (Raise TypeError,
   {| st_world := {| Demo.bd_on_path := false; Demo.replies := [] |};
      st_trace := [EvPopen ["bd"; "show"; "bd-7"; "--json"] (inl Demo.no_such_file);
                   EvPrint (MsgRunError "bd show bd-7 --json" Demo.no_such_file)] |}) /\
  (forall c, (get_task_details (JStr "bd-7") Demo.missing_run).1 <> Exit c) /\
  EvPrint MsgBdNotFound ∉ st_trace (get_task_details (JStr "bd-7") Demo.missing_run).2.
Proof.
  split; [reflexivity|]. split; [vm_compute; reflexivity|]. split.
  - intros c. vm_compute. discriminate.
  - vm_compute. intros Hin.
    repeat (apply elem_of_cons in Hin as [Hin | Hin]; [discriminate|]).
    inversion Hin.
Qed.

Lemma get_ready_tasks_requires_bd_witness :
  get_ready_tasks Demo.missing_run
  = (Exit 1, log (EvPrint MsgBdNotFound) (log (EvWhich "bd" false) Demo.missing_run)).
Proof. apply (get_ready_tasks_requires_bd Demo.missing_run). reflexivity. Defined.

(** C9 fails on the close reason: the prompt for "bd-7" holds the close
    command with its reason, and the reason does not hold the id. *)
Lemma close_reason_omits_id :
  contains (exec_prompt (P := Demo.platform) (JStr "bd-7"))
    ("bd close bd-7 --reason " +:+ dq +:+ close_reason +:+ dq) /\
  ~ contains close_reason "bd-7".
Proof.
  split.
  - apply has_infix_contains. vm_compute. reflexivity.
  - intros H. apply contains_has_infix in H. vm_compute in H. discriminate.
Qed.

Lemma exec_prompt_names_task_witness :
  exists id r,
    JStr "bd-7" = JStr id /\
    EvAgent (gemini_cmd (Some ["all"])) (exec_prompt (JStr "bd-7")) r
      ∈ st_trace (loop_body Demo.leaf_run).2 /\
    contains (exec_prompt (P := Demo.platform) (JStr "bd-7")) (exec_instruction id) /\
    contains (exec_instruction id) ("exec " +:+ id) /\
    contains (exec_prompt (P := Demo.platform) (JStr "bd-7")) (close_command id) /\
    close_command id = "bd close " +:+ id +:+ " --reason " +:+ dq +:+ close_reason +:+ dq /\
    contains (exec_prompt (P := Demo.platform) (JStr "bd-7"))
      (" --reason " +:+ dq +:+ close_reason +:+ dq).
Proof.
  apply (exec_prompt_names_task Demo.leaf_run (JStr "bd-7") (Demo.leaf_record "open")
           (Demo.after_fetch "bd-7" Demo.leaf_run)).
  - exact leaf_run_loads.
  - vm_compute. discriminate.
  - vm_compute. discriminate.
Defined.

(* ===================================================================== *)
(** ** Further properties of the selection *)
(* ===================================================================== *)

Lemma select_high_sub ts l t : select_high ts = Ok l -> t ∈ l -> t ∈ ts.
Proof.
  revert l. induction ts as [|x r IH]; intros l Hs Hin; simpl in Hs.
  - injection Hs as <-. inversion Hin.
  - res_inv. destruct a0.
    + apply elem_of_cons in Hin as [-> | Hin]; [left | right; eauto].
    + right. eauto.
Qed.

Lemma insert_keyed_sorted kx l r :
  okkey kx -> Forall okkey l -> StronglySorted key_le l ->
  insert_keyed kx l = Ok r -> StronglySorted key_le r.
Proof.
  intros Hx. revert r. induction l as [|ky l IH]; intros r Hl Hs Hr; simpl in Hr.
  - injection Hr as <-. repeat constructor.
  - apply Forall_cons in Hl as [Hy Hl].
    apply StronglySorted_inv in Hs as [Hs Hle].
    destruct (py_lt_okkey ky kx Hy Hx) as [[Hlt Hk] | [Hlt Hk]];
      rewrite Hlt in Hr; simpl in Hr.
    + destruct (insert_keyed_ok kx l Hx Hl) as (r' & Hr' & Hperm & _).
      rewrite Hr' in Hr. simpl in Hr. injection Hr as <-.
      constructor; [eapply IH; eauto|].
      rewrite Hperm. constructor; [apply key_lt_le, Hk | exact Hle].
    + injection Hr as <-. constructor; [constructor; assumption|].
      constructor; [exact Hk|].
      eapply Forall_impl; [exact Hle|]. intros z Hz. simpl in Hz.
      eauto using key_le_trans.
Qed.

Lemma sort_keyed_sorted l s :
  Forall okkey l -> sort_keyed l = Ok s -> StronglySorted key_le s.
Proof.
  revert s. induction l as [|kx l IH]; intros s Hl Hs; simpl in Hs.
  - injection Hs as <-. constructor.
  - apply Forall_cons in Hl as [Hx Hl].
    destruct (sort_keyed_ok l Hl) as (s0 & Hs0 & Hperm & _).
    rewrite Hs0 in Hs. simpl in Hs.
    eapply insert_keyed_sorted; [exact Hx | | | exact Hs].
    + rewrite Hperm. exact Hl.
    + apply IH; assumption.
Qed.

Lemma keyed_sorted_prio s :
  Forall (fun y => priority_key y.2 = Ok y.1) s ->
  StronglySorted key_le s -> StronglySorted prio_le (s.*2).
Proof.
  induction s as [|h s IH]; intros Hk Hs; simpl; [constructor|].
  apply Forall_cons in Hk as [Hh Hk]. apply StronglySorted_inv in Hs as [Hs Hle].
  constructor; [auto|].
  apply (Forall_keys_prio key_le prio_le); auto using key_le_prio.
Qed.

(** X1: the list the loop tests on line 123 holds exactly the tasks of
    the tracker's answer that pass the filter, in ascending order of
    priority. *)
Theorem high_priority_tasks_sorted tasks hp :
  high_priority_tasks tasks = Ok hp ->
  exists ts,
    py_iter tasks = Ok ts /\
    (forall t, t ∈ hp <-> t ∈ ts /\ eligible t) /\
    (length hp <= length ts)%nat /\
    StronglySorted prio_le hp.
Proof.
  unfold high_priority_tasks. intros Hh.
  destruct (py_iter tasks) as [ts|] eqn:Ets; simpl in Hh; [|discriminate].
  destruct (select_high ts) as [l|] eqn:El; simpl in Hh; [|discriminate].
  exists ts. split; [reflexivity|].
  pose proof (select_high_eligible _ _ El) as Hel.
  destruct (with_keys_eligible l Hel) as (kl & Hkl & Hok).
  destruct (sort_keyed_ok kl Hok) as (s & Hsort & Hperm & _).
  unfold sort_by_priority in Hh. rewrite Hkl in Hh. simpl in Hh.
  rewrite Hsort in Hh. simpl in Hh. injection Hh as <-.
  pose proof (with_keys_spec _ _ Hkl) as [Hl Hkeys].
  assert (s.*2 ≡ₚ l) as Hpl by (rewrite Hperm; exact (eq_ind _ _ (reflexivity _) _ Hl)).
  split; [|split].
  - intros t. rewrite Hpl. split.
    + intros Hin. split; [eapply select_high_sub; eauto|].
      rewrite Forall_forall in Hel. auto.
    + intros [Hin Ht]. eapply select_high_keeps; eauto.
  - rewrite Hpl. clear -El. revert l El.
    induction ts as [|x r IH]; intros l El; simpl in El.
    + injection El as <-. reflexivity.
    + res_inv. specialize (IH _ eq_refl). destruct a0; simpl; lia.
  - apply keyed_sorted_prio.
    + rewrite Hperm. exact Hkeys.
    + eapply sort_keyed_sorted; eauto.
Qed.

Lemma high_priority_tasks_sorted_witness :
  exists ts,
    py_iter Demo.ready_pair = Ok ts /\
    (forall t, t ∈ [Demo.task_value "bd-5" 0 "task" "open";
                    Demo.task_value "bd-2" 1 "epic" "open"]
               <-> t ∈ ts /\ eligible t) /\
    (2 <= length ts)%nat /\
    StronglySorted prio_le [Demo.task_value "bd-5" 0 "task" "open";
                            Demo.task_value "bd-2" 1 "epic" "open"].
Proof.
  apply (high_priority_tasks_sorted Demo.ready_pair
           [Demo.task_value "bd-5" 0 "task" "open"; Demo.task_value "bd-2" 1 "epic" "open"]).
  vm_compute. reflexivity.
Defined.

Lemma well_formed_priority t :
  well_formed_task t <-> exists p, priority_key t = Ok p /\ is_Some (to_num p).
Proof.
  unfold well_formed_task, priority_key, py_get. split.
  - intros (d & -> & [Hnone | (p & n & Hp & Hn)]).
    + rewrite Hnone. simpl. eauto.
    + rewrite Hp. simpl. eauto.
  - intros (p & Hk & n & Hn). destruct t; try discriminate.
    exists d. split; [reflexivity|]. injection Hk as <-.
    destruct (d !! "priority") as [p|]; simpl in Hn; eauto.
Qed.

Lemma select_high_defined ts :
  (exists l, select_high ts = Ok l) <-> Forall well_formed_task ts.
Proof.
  induction ts as [|t r IH]; simpl.
  - split; [constructor | eauto].
  - rewrite Forall_cons, <- IH, well_formed_priority. split.
    + intros (l & Hl). res_inv. split; [|eauto].
      exists a. split; [reflexivity|]. unfold py_le in E0.
      destruct (to_num a); [eauto | discriminate].
    + intros [(p & -> & n & Hn) (l & ->)]. simpl. unfold py_le. rewrite Hn. simpl. eauto.
Qed.

(** X2: on a list, the filter and the sort raise nothing exactly when
    every item is a record whose [priority], when present, is a number;
    one item of another shape makes the selection raise, whatever the
    other items are. *)
Theorem high_priority_tasks_defined ts :
  (exists hp, high_priority_tasks (JArr ts) = Ok hp) <-> Forall well_formed_task ts.
Proof.
  rewrite <- select_high_defined. unfold high_priority_tasks. simpl. split.
  - intros (hp & Hh). destruct (select_high ts) as [l|]; [eauto | discriminate].
  - intros (l & Hl). rewrite Hl. simpl.
    destruct (select_sort_keys _ _ Hl) as (s & -> & _). eauto.
Qed.

(** X3: an answer that is not a list gives a selection only when it is
    the empty string or the empty object, and then the selection is
    empty; every other value that is not a list makes the selection
    raise. *)
Theorem high_priority_tasks_not_a_list tasks hp :
  high_priority_tasks tasks = Ok hp ->
  (exists ts, tasks = JArr ts) \/ (hp = [] /\ (tasks = JStr "" \/ tasks = JObj ∅)).
Proof.
  unfold high_priority_tasks. destruct tasks; simpl; try discriminate.
  - destruct s as [|c s]; simpl.
    + intros [= <-]. right. auto.
    + discriminate.
  - eauto.
  - destruct (map_to_list d) as [|[k v] kvs] eqn:Ed; simpl.
    + intros [= <-]. apply map_to_list_empty_iff in Ed as ->. right. auto.
    + discriminate.
Qed.

Lemma high_priority_tasks_not_a_list_witness :
  (exists ts, JObj ∅ = JArr ts) \/ (@nil json = [] /\ (JObj ∅ = JStr "" \/ JObj ∅ = JObj ∅)).
Proof. apply (high_priority_tasks_not_a_list (JObj ∅) []). reflexivity. Defined.

(* ===================================================================== *)
(** ** What the script does to the outside *)
(* ===================================================================== *)

Section BoundedFacts.
Context `{P : Platform}.

Lemma bounded_quiet {A} n (m : M A) :
  (forall s, exists o, m s = (o, s) /\ forall c, o = Exit c -> c = 1) -> bounded n m.
Proof.
  intros Hm s o s' Hrun. destruct (Hm s) as (o' & Ho & Hc). rewrite Ho in Hrun.
  injection Hrun as <- <-. exists []. rewrite app_nil_r.
  split; [reflexivity|]. split; [constructor|]. split; [simpl; lia | exact Hc].
Qed.

Lemma bounded_ret {A} n (a : A) : bounded n (mret a).
Proof. apply bounded_quiet. intros s. exists (Ret a). split; [reflexivity | discriminate]. Qed.

Lemma bounded_raise {A} n e : bounded n (raise e : M A).
Proof. apply bounded_quiet. intros s. exists (Raise e). split; [reflexivity | discriminate]. Qed.

Lemma bounded_exit {A} n : bounded n (sys_exit 1 : M A).
Proof. apply bounded_quiet. intros s. exists (Exit 1). split; [reflexivity | congruence]. Qed.

Lemma bounded_lift {A} n (r : res A) : bounded n (lift r).
Proof. destruct r; [apply bounded_ret | apply bounded_raise]. Qed.

Lemma bounded_event {A} n (m : M A) :
  (forall s, exists a e w,
      m s = (Ret a, {| st_world := w; st_trace := st_trace s ++ [e] |}) /\
      expected_event e /\ (length (agent_calls [e]) <= n)%nat) ->
  bounded n m.
Proof.
  intros Hm s o s' Hrun. destruct (Hm s) as (a & e & w & Hs & He & Hn).
  rewrite Hs in Hrun. injection Hrun as <- <-. exists [e].
  split; [reflexivity|]. split; [repeat constructor; exact He|].
  split; [exact Hn | discriminate].
Qed.

Lemma bounded_print n m : bounded n (print m).
Proof.
  apply bounded_event. intros s. exists tt, (EvPrint m), (st_world s).
  split; [reflexivity|]. split; [exact I | simpl; lia].
Qed.

Lemma bounded_which n : bounded n (which "bd").
Proof.
  apply bounded_event. intros s. eexists _, (EvWhich "bd" _), (st_world s).
  split; [reflexivity|]. split; [reflexivity | simpl; lia].
Qed.

Lemma bounded_popen n argv : query_argv argv -> bounded n (popen argv).
Proof.
  intros Hq. apply bounded_event. intros s. unfold popen.
  destruct (subprocess_popen argv (st_world s)) as [r w].
  exists r, (EvPopen argv r), w. split; [reflexivity|]. split; [exact Hq | simpl; lia].
Qed.

Lemma bounded_agent_run n prompt : bounded (S n) (agent_run agent_argv prompt).
Proof.
  apply bounded_event. intros s. unfold agent_run.
  destruct (subprocess_run agent_argv prompt (st_world s)) as [r w].
  exists r, (EvAgent agent_argv prompt r), w.
  split; [reflexivity|]. split; [reflexivity | simpl; lia].
Qed.

Lemma bounded_bind {A B} a b (m : M A) (k : A -> M B) :
  bounded a m -> (forall x, bounded b (k x)) -> bounded (a + b) (m ≫= k).
Proof.
  intros Hm Hk s o s' Hrun. unfold mbind, M_bind in Hrun.
  destruct (m s) as [[x | c | e] s1] eqn:Em;
    destruct (Hm _ _ _ Em) as (tr1 & Htr1 & Hev1 & Hn1 & Hc1).
  - destruct (Hk x _ _ _ Hrun) as (tr2 & Htr2 & Hev2 & Hn2 & Hc2).
    exists (tr1 ++ tr2). rewrite Htr2, Htr1, app_assoc.
    split; [reflexivity|]. split; [apply Forall_app; auto|].
    split; [|exact Hc2]. rewrite agent_calls_app, length_app. lia.
  - injection Hrun as <- <-. exists tr1.
    split; [exact Htr1|]. split; [exact Hev1|]. split; [lia|].
    intros c' [= <-]. auto.
  - injection Hrun as <- <-. exists tr1.
    split; [exact Htr1|]. split; [exact Hev1|]. split; [lia | discriminate].
Qed.

Lemma bounded_bind0 {A B} n (m : M A) (k : A -> M B) :
  bounded 0 m -> (forall x, bounded n (k x)) -> bounded n (m ≫= k).
Proof. apply (bounded_bind 0 n). Qed.

Lemma bounded_bind1 {A B} (m : M A) (k : A -> M B) :
  bounded 1 m -> (forall x, bounded 0 (k x)) -> bounded 1 (m ≫= k).
Proof. apply (bounded_bind 1 0). Qed.

End BoundedFacts.

Ltac bounded_leaf :=
  first [ apply bounded_ret | apply bounded_raise | apply bounded_exit
        | apply bounded_lift | apply bounded_print | apply bounded_which ].

Ltac bounded_auto :=
  lazymatch goal with
  | |- bounded _ (if ?c then _ else _) => destruct c; bounded_auto
  | |- bounded _ (match ?x with _ => _ end) => destruct x; bounded_auto
  | |- bounded _ (_ ≫= _) => apply bounded_bind0; [bounded_auto | intros ?; bounded_auto]
  | |- _ => first [bounded_leaf | solve [auto]]
  end.

Section BoundedScript.
Context `{P : Platform}.

Lemma bounded_run_shell_command n cmd :
  (forall argv, argv_of cmd = Some argv -> query_argv argv) ->
  bounded n (run_shell_command cmd).
Proof.
  intros Hq. unfold run_shell_command.
  destruct (argv_of cmd) as [argv|]; [|apply bounded_raise].
  apply bounded_bind0; [apply bounded_popen; auto | intros r; bounded_auto].
Qed.

Lemma bounded_call_gemini prompt : bounded 1 (call_gemini prompt (Some ["all"])).
Proof.
  unfold call_gemini. apply bounded_bind0; [apply bounded_print | intros _].
  apply bounded_bind1; [apply (bounded_agent_run 0) | intros r; bounded_auto].
Qed.

Lemma bounded_check_git_repo n : bounded n check_git_repo.
Proof.
  unfold check_git_repo. apply bounded_bind0; [|intros r; bounded_auto].
  apply bounded_run_shell_command. intros argv [= <-]. left. reflexivity.
Qed.

Lemma bounded_get_ready_tasks n : bounded n get_ready_tasks.
Proof.
  unfold get_ready_tasks.
  apply bounded_bind0; [apply bounded_which | intros found].
  apply bounded_bind0; [bounded_auto | intros _].
  apply bounded_bind0; [|intros r; bounded_auto].
  apply bounded_run_shell_command. intros argv [= <-]. right. left. reflexivity.
Qed.

Lemma bounded_get_task_details n task_id : bounded n (get_task_details task_id).
Proof.
  unfold get_task_details. apply bounded_bind0; [|intros r; bounded_auto].
  apply bounded_run_shell_command. intros argv Hargv.
  destruct task_id; try discriminate. injection Hargv as <-. right. right. eauto.
Qed.

Lemma bounded_verify_closed n task_id : bounded n (verify_closed task_id).
Proof.
  unfold verify_closed.
  apply bounded_bind0; [apply bounded_get_task_details | intros final; bounded_auto].
Qed.

Lemma bounded_process task_id task_details : bounded 1 (process task_id task_details).
Proof.
  unfold process.
  apply bounded_bind0; [apply bounded_lift | intros task_type].
  apply bounded_bind0; [apply bounded_lift | intros task_title].
  do 3 (apply bounded_bind0; [apply bounded_print | intros _]).
  destruct (_ || _).
  - unfold decompose. apply bounded_bind0; [apply bounded_print | intros _].
    apply bounded_bind1; [apply bounded_call_gemini | intros ok; apply bounded_ret].
  - unfold execute.
    apply bounded_bind1; [apply bounded_call_gemini | intros _; apply bounded_verify_closed].
Qed.

Lemma bounded_loop_body : bounded 1 loop_body.
Proof.
  unfold loop_body.
  apply bounded_bind0; [apply bounded_get_ready_tasks | intros tasks].
  apply bounded_bind0; [apply bounded_lift | intros [|current_task high]]; [bounded_auto|].
  apply bounded_bind0; [apply bounded_lift | intros task_id].
  destruct (negb (truthy task_id)); [bounded_auto|].
  apply bounded_bind0; [apply bounded_get_task_details | intros task_details].
  destruct (negb (truthy task_details)); [bounded_auto | apply bounded_process].
Qed.

Lemma bounded_while_true fuel : bounded fuel (while_true fuel).
Proof.
  induction fuel as [|n IH]; simpl; [apply bounded_ret|].
  apply (bounded_bind 1 n); [apply bounded_loop_body | intros [|]].
  - exact IH.
  - apply bounded_ret.
Qed.

Lemma bounded_main fuel : bounded fuel (main fuel).
Proof.
  unfold main. apply bounded_bind0; [apply bounded_check_git_repo | intros _].
  apply bounded_while_true.
Qed.

(** X4: one pass of the loop invokes the agent at most once, and always
    as [gemini --yolo --model gemini-3-pro-preview --allowed-tools=all]. *)
Theorem pass_invokes_agent_at_most_once s :
  exists tr,
    st_trace (loop_body s).2 = st_trace s ++ tr /\
    (length (agent_calls tr) <= 1)%nat /\
    forall argv prompt r,
      EvAgent argv prompt r ∈ tr ->
      argv = ["gemini"; "--yolo"; "--model"; "gemini-3-pro-preview"; "--allowed-tools=all"].
Proof.
  destruct (loop_body s) as [o s'] eqn:Hrun.
  destruct (bounded_loop_body _ _ _ Hrun) as (tr & Htr & Hev & Hn & _).
  exists tr. split; [exact Htr|]. split; [exact Hn|].
  intros argv prompt r Hin. rewrite Forall_forall in Hev. apply (Hev _ Hin).
Qed.

(** X5: whatever the tracker and the agent answer, the only processes
    [main] starts besides the agent are [git rev-parse
    --is-inside-work-tree], [bd ready --json] and [bd show <id> --json];
    it never starts [bd close] or another tracker command itself. *)
Theorem main_starts_only_queries fuel s :
  exists tr,
    st_trace (main fuel s).2 = st_trace s ++ tr /\
    forall argv r,
      EvPopen argv r ∈ tr ->
      (argv = ["git"; "rev-parse"; "--is-inside-work-tree"] \/
       argv = ["bd"; "ready"; "--json"] \/
       exists id, argv = ["bd"; "show"; id; "--json"]) /\
      forall rest, argv <> "bd" :: "close" :: rest.
Proof.
  destruct (main fuel s) as [o s'] eqn:Hrun.
  destruct (bounded_main fuel _ _ _ Hrun) as (tr & Htr & Hev & _).
  exists tr. split; [exact Htr|].
  intros argv r Hin. rewrite Forall_forall in Hev. specialize (Hev _ Hin). simpl in Hev.
  split; [exact Hev|].
  intros rest ->. destruct Hev as [Hq | [Hq | [id Hq]]]; discriminate.
Qed.

(** X6: a run of [main] ends with status 0 or 1, and [fuel] passes of
    the loop invoke the agent at most [fuel] times. *)
Theorem main_exit_status fuel s :
  (exit_status (main fuel s).1 = None \/
   exit_status (main fuel s).1 = Some 0 \/
   exit_status (main fuel s).1 = Some 1) /\
  exists tr,
    st_trace (main fuel s).2 = st_trace s ++ tr /\
    (length (agent_calls tr) <= fuel)%nat.
Proof.
  destruct (main fuel s) as [o s'] eqn:Hrun.
  destruct (bounded_main fuel _ _ _ Hrun) as (tr & Htr & _ & Hn & Hc).
  split; [|eauto].
  destruct o as [[[]|] | c | e]; simpl; auto.
  rewrite (Hc c eq_refl). auto.
Qed.

End BoundedScript.

(* ===================================================================== *)
(** ** Further properties of the script *)
(* ===================================================================== *)

Section ScriptFacts.
Context `{P : Platform}.

Lemma argv_of_strs argv : argv_of (JStr <$> argv) = Some argv.
Proof.
  unfold argv_of. induction argv as [|a argv IH]; [reflexivity|].
  rewrite fmap_cons. simpl. simpl in IH. rewrite IH. reflexivity.
Qed.

(** X7: on a command of strings [run_shell_command] starts the process
    once and always returns: [None], after the run-error line, exactly
    when the start or the communication raised, and otherwise the
    stripped outputs with the return code, whatever that code is. *)
Theorem run_shell_command_result s argv :
  exists res s',
    run_shell_command (JStr <$> argv) s = (Ret res, s') /\
    popen_calls (st_trace s')
    = popen_calls (st_trace s) ++ [EvPopen argv (subprocess_popen argv (st_world s)).1] /\
    (res = None <-> exists e, (subprocess_popen argv (st_world s)).1 = inl e) /\
    (forall e, (subprocess_popen argv (st_world s)).1 = inl e ->
               last (st_trace s') = Some (EvPrint (MsgRunError (String.concat " " argv) e))) /\
    (forall out err rc, (subprocess_popen argv (st_world s)).1 = inr (out, err, rc) ->
               res = Some {| stdout := strip_or_empty out;
                             stderr := strip_or_empty err;
                             returncode := rc |}).
Proof.
  unfold run_shell_command. rewrite argv_of_strs. unfold_run.
  destruct (subprocess_popen argv (st_world s)) as [[e | [[out err] rc]] w]; simpl.
  - eexists _, _. split; [reflexivity|]. simpl. rewrite <- app_assoc. simpl.
    split; [trace_done|]. split; [split; eauto|]. split.
    + intros e' [= <-]. rewrite last_app. reflexivity.
    + discriminate.
  - eexists _, _. split; [reflexivity|]. simpl.
    split; [trace_done|]. split; [split; [discriminate | intros [e' [=]]]|]. split.
    + discriminate.
    + intros out' err' rc' [= <- <- <-]. reflexivity.
Qed.

(** X8: [call_gemini] always returns, after exactly one invocation of
    the agent with the given prompt on its input; it returns [True]
    exactly when the agent ran and ended with return code 0. *)
Theorem call_gemini_result prompt tools s :
  exists ok s',
    call_gemini prompt tools s = (Ret ok, s') /\
    agent_calls (st_trace s')
    = agent_calls (st_trace s) ++
      [EvAgent (gemini_cmd tools) prompt
         (subprocess_run (gemini_cmd tools) prompt (st_world s)).1] /\
    (ok = true <-> (subprocess_run (gemini_cmd tools) prompt (st_world s)).1 = inr 0).
Proof.
  unfold call_gemini. unfold_run.
  destruct (subprocess_run (gemini_cmd tools) prompt (st_world s)) as [[e | rc] w]; simpl.
  - eexists _, _. split; [reflexivity|]. split; [trace_done|]. split; discriminate.
  - eexists _, _. split; [reflexivity|]. split; [trace_done|].
    rewrite Z.eqb_eq. split; congruence.
Qed.

(** X9: when "all" is among the allowed tools, the agent gets the single
    flag [--allowed-tools=all] and no flag for any other tool. *)
Theorem gemini_cmd_all tools :
  "all" ∈ tools ->
  gemini_cmd (Some tools)
  = ["gemini"; "--yolo"; "--model"; "gemini-3-pro-preview"; "--allowed-tools=all"].
Proof.
  intros Hin. unfold gemini_cmd. destruct tools as [|t tools]; [inversion Hin|].
  simpl. rewrite bool_decide_eq_true_2 by exact Hin. reflexivity.
Qed.

(** X10: outside a git work tree, that is when [git rev-parse] cannot be
    started or returns a code other than 0, [main] prints the error and
    ends with status 1; the tracker is neither looked up nor queried and
    no agent is invoked. *)
Theorem main_stops_outside_git fuel s :
  (forall out err, (subprocess_popen git_check (st_world s)).1 <> inr (out, err, 0)) ->
  (main fuel s).1 = Exit 1 /\
  st_trace (main fuel s).2
  = st_trace s ++
    EvPopen git_check (subprocess_popen git_check (st_world s)).1 ::
    match (subprocess_popen git_check (st_world s)).1 with
    | inl e => [EvPrint (MsgRunError "git rev-parse --is-inside-work-tree" e);
                EvPrint MsgNotGitRepo]
    | inr _ => [EvPrint MsgNotGitRepo]
    end.
Proof.
  intros Hgit. unfold main, check_git_repo. unfold_run. fold git_check.
  destruct (subprocess_popen git_check (st_world s)) as [[e | [[out err] rc]] w]; simpl in *.
  - rewrite <- !app_assoc. auto.
  - destruct (rc =? 0) eqn:Erc.
    + apply Z.eqb_eq in Erc as ->. destruct (Hgit out err). reflexivity.
    + simpl. rewrite <- !app_assoc. auto.
Qed.

(** X11: when the tracker ran, the ready query returns the decoded
    output as it is for return code 0, whatever its shape; for another
    return code, or for output that does not decode, it returns the empty
    list after a diagnostic. *)
Theorem get_ready_tasks_degrades s out err rc w :
  shutil_which "bd" (st_world s) = true ->
  subprocess_popen bd_ready (st_world s) = (inr (out, err, rc), w) ->
  let s1 := {| st_world := w;
               st_trace := st_trace s ++
                           [EvWhich "bd" true; EvPopen bd_ready (inr (out, err, rc))] |} in
  (forall tasks, rc = 0 -> json_loads (strip_or_empty out) = Some tasks ->
                 get_ready_tasks s = (Ret tasks, s1)) /\
  (rc = 0 -> json_loads (strip_or_empty out) = None ->
   get_ready_tasks s
   = (Ret (JArr []), log (EvPrint (MsgReadyParseError (strip_or_empty out))) s1)) /\
  (rc <> 0 ->
   get_ready_tasks s
   = (Ret (JArr []), log (EvPrint (MsgFetchTasksError (strip_or_empty err))) s1)).
Proof.
  intros Hwhich Hpopen s1.
  pose proof (get_ready_tasks_answers s _ _ Hwhich Hpopen) as Hans. simpl in Hans.
  split; [|split].
  - intros tasks -> Hdec. rewrite Hans, Hdec. reflexivity.
  - intros -> Hdec. rewrite Hans, Hdec. reflexivity.
  - intros Hrc. apply Z.eqb_neq in Hrc. rewrite Hans, Hrc. reflexivity.
Qed.

(** X12: a ready query that fails (return code other than 0, or output
    that does not decode) ends the loop like an empty task list: the pass
    prints the no-more-work line and breaks, and the process ends with
    status 0 without any agent invocation. *)
Theorem failed_ready_query_ends_loop s out err rc w :
  shutil_which "bd" (st_world s) = true ->
  subprocess_popen bd_ready (st_world s) = (inr (out, err, rc), w) ->
  rc <> 0 \/ json_loads (strip_or_empty out) = None ->
  (loop_body s).1 = Ret Break /\
  last (st_trace (loop_body s).2) = Some (EvPrint MsgNoMoreWork) /\
  agent_calls (st_trace (loop_body s).2) = agent_calls (st_trace s) /\
  forall fuel, exit_status (while_true (S fuel) s).1 = Some 0.
Proof.
  intros Hwhich Hpopen Hfail.
  pose proof (get_ready_tasks_answers s _ _ Hwhich Hpopen) as Hans. simpl in Hans.
  assert (exists s1, get_ready_tasks s = (Ret (JArr []), s1)) as [s1 Hready].
  { rewrite Hans. destruct (rc =? 0) eqn:Erc; [|eauto].
    destruct Hfail as [Hrc | ->]; [|eauto].
    apply Z.eqb_eq in Erc. contradiction. }
  assert (loop_body s = (Ret Break, log (EvPrint MsgNoMoreWork) s1)) as Hbody.
  { unfold loop_body, mbind, M_bind, lift. rewrite Hready. reflexivity. }
  rewrite Hbody. simpl. split; [reflexivity|]. split; [apply last_snoc|]. split.
  - rewrite agent_calls_app, app_nil_r. apply (get_ready_tasks_no_agent _ _ _ Hready).
  - intros fuel. unfold mbind, M_bind. rewrite Hbody. reflexivity.
Qed.

(** X13: a task that was taken but whose details cannot be loaded (the
    fetch returns [None] or another falsy value) is skipped: the pass
    prints the skip line and goes on to the next selection, and no agent
    is invoked. *)
Theorem missing_details_skipped s task_id s1 v s2 :
  takes s task_id s1 ->
  truthy task_id = true ->
  get_task_details task_id s1 = (Ret v, s2) ->
  truthy v = false ->
  loop_body s = (Ret Continue, log (EvPrint (MsgNoDetails task_id)) s2) /\
  agent_calls (st_trace s2) = agent_calls (st_trace s).
Proof.
  intros Htakes Hid Hfetch Hv. split.
  - rewrite (loop_body_taken _ _ _ Htakes), Hid. simpl.
    rewrite (bind_ret _ _ _ _ _ Hfetch), Hv. reflexivity.
  - destruct Htakes as (tasks & current_task & rest & Hready & _).
    apply get_task_details_trace in Hfetch as [(tr & -> & Hq & _) _].
    rewrite agent_calls_app, Hq, app_nil_r.
    apply (get_ready_tasks_no_agent _ _ _ Hready).
Qed.

(** X14: a task whose id is truthy but not a string (a number, say)
    ends the pass with [TypeError] right after the ready query: no
    tracker process is started for it and nothing is printed. *)
Theorem nonstring_id_raises s task_id s1 :
  takes s task_id s1 ->
  truthy task_id = true ->
  (forall id, task_id <> JStr id) ->
  loop_body s = (Raise TypeError, s1).
Proof.
  intros Htakes Hid Hstr.
  rewrite (loop_body_taken _ _ _ Htakes), Hid. simpl.
  unfold get_task_details, run_shell_command, mbind, M_bind.
  destruct task_id; try reflexivity. destruct (Hstr s0). reflexivity.
Qed.

(** X15: details that are truthy but no record (the first item of the
    show answer is a number or a string, say) end the pass with
    [AttributeError] right after the fetch: nothing is printed and no
    agent is invoked. *)
Theorem nonrecord_details_raise s task_id s1 v s2 :
  takes s task_id s1 ->
  truthy task_id = true ->
  get_task_details task_id s1 = (Ret v, s2) ->
  truthy v = true ->
  (forall d, v <> JObj d) ->
  loop_body s = (Raise AttributeError, s2).
Proof.
  intros Htakes Hid Hfetch Hv Hrec.
  rewrite (loop_body_taken _ _ _ Htakes), Hid. simpl.
  rewrite (bind_ret _ _ _ _ _ Hfetch), Hv. simpl.
  destruct v; try reflexivity. destruct (Hrec d). reflexivity.
Qed.

(** X16: on the decompose path the id is a string, and the prompt the
    agent gets asks to decompose that id. *)
Theorem decompose_prompt_names_task s task_id d s2 :
  loads s task_id d s2 ->
  field d "issue_type" = JStr "epic" \/ field d "issue_type" = JStr "feature" ->
  exists id r,
    task_id = JStr id /\
    EvAgent (gemini_cmd (Some ["all"])) (decompose_prompt task_id) r
      ∈ st_trace (loop_body s).2 /\
    contains (decompose_prompt task_id)
      ("load and use the spec skill to decompose " +:+ id +:+ " into actionable ").
Proof.
  intros Hloads Hty.
  pose proof Hloads as (s1 & Htakes & Hid & Hfetch & Hd).
  destruct (get_task_details_str _ _ _ _ Hfetch) as [id ->].
  destruct (call_gemini_returns (decompose_prompt (JStr id)) (Some ["all"])
              (log (EvPrint (MsgDecomposing (field d "issue_type")))
                 (announced (JStr id) d s2))) as (ok & s4 & r & Hcall & Htr).
  exists id, r. split; [reflexivity|]. split.
  - rewrite (loop_body_loaded _ _ _ _ Hloads), process_record.
    destruct (is_composite_spec d) as [_ ->]; [|exact Hty].
    unfold decompose. unfold mbind at 1, M_bind at 1. simpl.
    rewrite (bind_ret _ _ _ _ _ Hcall). simpl. rewrite Htr.
    apply elem_of_app. right. right. left.
  - unfold decompose_prompt. simpl. apply contains_skip.
    exists "", (nl +:+
      "tasks. Ensure each task has clear acceptance criteria and verification instructions." +:+ nl +:+
      "Focus on breaking it down into items that can be implemented in single sittings." +:+ nl).
    rewrite append_empty, !append_assoc. reflexivity.
Qed.

End ScriptFacts.

(* ===================================================================== *)
(** ** Further runs *)
(* ===================================================================== *)

Lemma gemini_cmd_all_witness :
  gemini_cmd (Some ["read_file"; "all"; "shell"])
  = ["gemini"; "--yolo"; "--model"; "gemini-3-pro-preview"; "--allowed-tools=all"].
Proof. apply gemini_cmd_all. right. left. Defined.

Lemma main_stops_outside_git_witness :
  (main 3 Runs.outside_git).1 = Exit 1 /\
  st_trace (main 3 Runs.outside_git).2
  = [EvPopen git_check (inr ("", "fatal: not a git repository", 128));
     EvPrint MsgNotGitRepo].
Proof.
  apply (main_stops_outside_git (P := Runs.platform) 3 Runs.outside_git).
  intros out err. vm_compute. discriminate.
Defined.

Lemma get_ready_tasks_degrades_witness :
  get_ready_tasks Runs.failing_tracker
  = (Ret (JArr []),
     @Build_state Runs.platform
       {| Demo.bd_on_path := true; Demo.replies := [] |}
       [EvWhich "bd" true;
        EvPopen bd_ready (inr ("", "Error: database is locked", 1));
        EvPrint (MsgFetchTasksError "Error: database is locked")]).
Proof.
  destruct (get_ready_tasks_degrades (P := Runs.platform) Runs.failing_tracker
              "" "Error: database is locked" 1
              {| Demo.bd_on_path := true; Demo.replies := [] |}) as (_ & _ & Hrc).
  - reflexivity.
  - reflexivity.
  - apply Hrc. discriminate.
Defined.

Lemma failed_ready_query_ends_loop_witness :
  (loop_body Runs.failing_tracker).1 = Ret Break /\
  exit_status (while_true 1 Runs.failing_tracker).1 = Some 0.
Proof.
  destruct (failed_ready_query_ends_loop (P := Runs.platform) Runs.failing_tracker
              "" "Error: database is locked" 1
              {| Demo.bd_on_path := true; Demo.replies := [] |}) as (Hbody & _ & _ & Hloop).
  - reflexivity.
  - reflexivity.
  - left. discriminate.
  - split; [exact Hbody | apply (Hloop 0%nat)].
Defined.

Lemma vanished_takes :
  takes Runs.vanished (JStr "bd-7") (Runs.after_ready Runs.vanished).
Proof.
  exists (JArr [JObj (Demo.leaf_record "open")]), (JObj (Demo.leaf_record "open")), [].
  split; [|split]; vm_compute; reflexivity.
Qed.

Lemma missing_details_skipped_witness :
  loop_body Runs.vanished
  = (Ret Continue,
     log (EvPrint (MsgNoDetails (JStr "bd-7"))) (Runs.after_fetch "bd-7" Runs.vanished)).
Proof.
  apply (missing_details_skipped (P := Runs.platform) Runs.vanished (JStr "bd-7")
           (Runs.after_ready Runs.vanished) JNull).
  - exact vanished_takes.
  - reflexivity.
  - vm_compute. reflexivity.
  - reflexivity.
Defined.

Lemma nonstring_id_raises_witness :
  loop_body Runs.numeric_id = (Raise TypeError, Runs.after_ready Runs.numeric_id).
Proof.
  apply (nonstring_id_raises (P := Runs.platform) Runs.numeric_id (JInt 7)).
  - exists (JArr [mk_task [("id", JInt 7); ("priority", JInt 0)]]),
      (mk_task [("id", JInt 7); ("priority", JInt 0)]), [].
    split; [|split]; vm_compute; reflexivity.
  - reflexivity.
  - discriminate.
Defined.

Lemma nonrecord_details_raise_witness :
  loop_body Runs.number_details
  = (Raise AttributeError, Runs.after_fetch "bd-7" Runs.number_details).
Proof.
  apply (nonrecord_details_raise (P := Runs.platform) Runs.number_details (JStr "bd-7")
           (Runs.after_ready Runs.number_details) (JInt 5)).
  - exists (JArr [JObj (Demo.leaf_record "open")]), (JObj (Demo.leaf_record "open")), [].
    split; [|split]; vm_compute; reflexivity.
  - reflexivity.
  - vm_compute. reflexivity.
  - reflexivity.
  - discriminate.
Defined.

Lemma decompose_prompt_names_task_witness :
  exists id r,
    JStr "bd-3" = JStr id /\
    EvAgent (gemini_cmd (Some ["all"])) (decompose_prompt (P := Runs.platform) (JStr "bd-3")) r
      ∈ st_trace (loop_body Runs.epic).2 /\
    contains (decompose_prompt (P := Runs.platform) (JStr "bd-3"))
      ("load and use the spec skill to decompose " +:+ id +:+ " into actionable ").
Proof.
  apply (decompose_prompt_names_task (P := Runs.platform) Runs.epic (JStr "bd-3")
           Demo.epic_record (Runs.after_fetch "bd-3" Runs.epic)).
  - exists (Runs.after_ready Runs.epic). split; [|split; [|split]].
    + exists (JArr [JObj Demo.epic_record]), (JObj Demo.epic_record), [].
      split; [|split]; vm_compute; reflexivity.
    + reflexivity.
    + vm_compute. reflexivity.
    + vm_compute. reflexivity.
  - left. vm_compute. reflexivity.
Defined.

